(** * README metadata extractor ([src/lib/readme-parser.ts])

    A shallow embedding of [parseReadme] and of the string and regular
    expression primitives it is built from, followed by the properties of
    the extractor.

    - A JavaScript string is the list of its UTF-16 code units; [length] is
      the [.length] property.
    - The regular expression literals of the source are values of a small
      pattern syntax, run by a backtracking matcher that follows the
      ECMAScript matching order (leftmost start, greedy quantifier, shorter
      repetitions tried on failure).
    - A property access on [undefined] is the only way the source could
      raise; it is a [Throw] of the completion type. *)

From Stdlib Require Import Ascii String.
From Stdlib Require Import List NArith Arith Bool Lia.
Import ListNotations.

(** ** Strings *)

Definition char := N.
Definition jsstring := list char.

(** A literal of the source, unit by unit. *)
Definition lit (s : string) : jsstring :=
  map N_of_ascii (list_ascii_of_string s).

Definition LF : char := 10%N.
Definition CR : char := 13%N.
Definition hash : char := 35%N.
Definition star : char := 42%N.
Definition dash : char := 45%N.
Definition space : char := 32%N.
Definition dot : char := 46%N.
Definition bang : char := 33%N.
Definition question : char := 63%N.
Definition lbracket : char := 91%N.
Definition rbracket : char := 93%N.
Definition lparen : char := 40%N.
Definition rparen : char := 41%N.
Definition backtick : char := 96%N.

(** ECMAScript LineTerminator: LF, CR, LS, PS. *)
Definition isLineTerminator (c : char) : bool :=
  (c =? 10)%N || (c =? 13)%N || (c =? 8232)%N || (c =? 8233)%N.

(** ECMAScript WhiteSpace together with LineTerminator: the class [\s] of a
    pattern and the units [trim] strips. *)
Definition isWhiteSpace (c : char) : bool :=
  ((9 <=? c)%N && (c <=? 13)%N) || (c =? 32)%N || (c =? 160)%N
  || (c =? 5760)%N || ((8192 <=? c)%N && (c <=? 8202)%N)
  || (c =? 8232)%N || (c =? 8233)%N || (c =? 8239)%N || (c =? 8287)%N
  || (c =? 12288)%N || (c =? 65279)%N.

Fixpoint trimStart (s : jsstring) : jsstring :=
  match s with
  | c :: s' => if isWhiteSpace c then trimStart s' else s
  | [] => []
  end.

Fixpoint trimEnd (s : jsstring) : jsstring :=
  match s with
  | c :: s' =>
      match trimEnd s' with
      | [] => if isWhiteSpace c then [] else [c]
      | t => c :: t
      end
  | [] => []
  end.

(** [String.prototype.trim] *)
Definition trim (s : jsstring) : jsstring := trimEnd (trimStart s).

(** [s.startsWith(c)] for a one-unit search string. *)
Definition startsWith (c : char) (s : jsstring) : bool :=
  match s with
  | x :: _ => (x =? c)%N
  | [] => false
  end.

(** A string in a boolean position: the empty string is falsy. *)
Definition truthy (s : jsstring) : bool :=
  match s with [] => false | _ => true end.

(** [s.split(sep)] for a one-unit separator: never the empty array. *)
Fixpoint split (sep : char) (s : jsstring) : list jsstring :=
  match s with
  | [] => [[]]
  | c :: s' =>
      if (c =? sep)%N then [] :: split sep s'
      else match split sep s' with
           | w :: ws => (c :: w) :: ws
           | [] => [[c]]
           end
  end.

(** [a.join(sep)] *)
Fixpoint join (sep : jsstring) (ws : list jsstring) : jsstring :=
  match ws with
  | [] => []
  | [w] => w
  | w :: ws' => w ++ sep ++ join sep ws'
  end.

(** [s.substring(0, n)] *)
Definition substring0 (n : nat) (s : jsstring) : jsstring := firstn n s.

(** ** Completions: a value, or a raised [TypeError] *)

Inductive completion (A : Type) : Type :=
| Normal (a : A)
| Throw.
Arguments Normal {A} a.
Arguments Throw {A}.

Definition bind {A B : Type} (m : completion A) (k : A -> completion B)
  : completion B :=
  match m with
  | Normal a => k a
  | Throw => Throw
  end.

Notation "x <- m ;; k" := (bind m (fun x => k))
  (at level 61, m at next level, right associativity).

(** [a[i]] followed by a method call: reading past the end gives
    [undefined], and calling a method on it raises. *)
Definition item {A : Type} (a : list A) (i : nat) : completion A :=
  match nth_error a i with
  | Some x => Normal x
  | None => Throw
  end.

(** ** Regular expressions *)

(** The pattern syntax covers what the literals of the source use: the two
    assertions, one unit of a class (a literal unit is a singleton class),
    and a greedy [+] over a class, with or without a capturing group around
    it. *)
Inductive atom : Type :=
| AssertStart
| AssertEnd
| Class (p : char -> bool)
| ClassPlus (p : char -> bool)
| GroupPlus (p : char -> bool).

Record regexp : Type := RegExp {
  pattern : list atom;
  multiline : bool
}.

(** A successful match at a position: the number of units it spans and the
    captures, in order of their groups. *)
Definition matched : Type := (nat * list jsstring)%type.

Definition atLineStart (m : bool) (prev : option char) : bool :=
  match prev with
  | None => true
  | Some c => m && isLineTerminator c
  end.

Definition atLineEnd (m : bool) (s : jsstring) : bool :=
  match s with
  | [] => true
  | c :: _ => m && isLineTerminator c
  end.

(** Greedy [p+] followed by the continuation [k]: one more unit is tried
    first, the continuation at this point only when that fails.  The result
    is the run taken by the quantifier and what the continuation matched. *)
Fixpoint greedy (p : char -> bool)
    (k : option char -> jsstring -> option matched)
    (s : jsstring) : option (jsstring * matched) :=
  match s with
  | [] => None
  | c :: s' =>
      if p c then
        match greedy p k s' with
        | Some (run, r) => Some (c :: run, r)
        | None =>
            match k (Some c) s' with
            | Some r => Some ([c], r)
            | None => None
            end
        end
      else None
  end.

(** The pattern [r] matched at the current position: [prev] is the unit
    before it, [s] the input from it on. *)
Fixpoint matchAt (m : bool) (r : list atom) (prev : option char)
    (s : jsstring) : option matched :=
  match r with
  | [] => Some (0, [])
  | AssertStart :: r' =>
      if atLineStart m prev then matchAt m r' prev s else None
  | AssertEnd :: r' =>
      if atLineEnd m s then matchAt m r' prev s else None
  | Class p :: r' =>
      match s with
      | c :: s' =>
          if p c then
            match matchAt m r' (Some c) s' with
            | Some (n, caps) => Some (S n, caps)
            | None => None
            end
          else None
      | [] => None
      end
  | ClassPlus p :: r' =>
      match greedy p (matchAt m r') s with
      | Some (run, (n, caps)) => Some (length run + n, caps)
      | None => None
      end
  | GroupPlus p :: r' =>
      match greedy p (matchAt m r') s with
      | Some (run, (n, caps)) => Some (length run + n, run :: caps)
      | None => None
      end
  end.

(** The result of [RegExp.prototype.exec]: where the match starts, what it
    spans and its captures. *)
Record execResult : Type := ExecResult {
  index : nat;
  span : nat;
  groups : list jsstring
}.

(** The leftmost position from which the pattern matches. *)
Fixpoint searchFrom (re : regexp) (prev : option char) (s : jsstring)
    (i : nat) : option execResult :=
  match matchAt (multiline re) (pattern re) prev s with
  | Some (n, caps) => Some (ExecResult i n caps)
  | None =>
      match s with
      | [] => None
      | c :: s' => searchFrom re (Some c) s' (S i)
      end
  end.

(** [s.match(re)] for a pattern without the [g] flag. *)
Definition stringMatch (re : regexp) (s : jsstring) : option execResult :=
  searchFrom re None s 0.

(** [m[i]] for [i >= 1] followed by a method call. *)
Definition group (m : execResult) (i : nat) : completion jsstring :=
  item (groups m) (i - 1).

(** The replacement text ['$1']: the first capture, empty when there is
    none. *)
Definition dollar1 (caps : list jsstring) : jsstring := nth 0 caps [].

(** [s.replace(re, '$1')] for a pattern with the [g] flag: every match,
    found from the end of the one before, gives way to its first capture;
    [skip] counts the units of the current match still to pass over.  After
    an empty match the search resumes one unit further. *)
Fixpoint replaceFrom (re : regexp) (prev : option char) (s : jsstring)
    (skip : nat) : jsstring :=
  match s with
  | [] =>
      match skip, matchAt (multiline re) (pattern re) prev [] with
      | 0, Some (_, caps) => dollar1 caps
      | _, _ => []
      end
  | c :: s' =>
      match skip with
      | S k => replaceFrom re (Some c) s' k
      | 0 =>
          match matchAt (multiline re) (pattern re) prev s with
          | Some (0, caps) => dollar1 caps ++ c :: replaceFrom re (Some c) s' 0
          | Some (S k, caps) => dollar1 caps ++ replaceFrom re (Some c) s' k
          | None => c :: replaceFrom re (Some c) s' 0
          end
      end
  end.

Definition replaceAll (re : regexp) (s : jsstring) : jsstring :=
  replaceFrom re None s 0.

(** ** The patterns of the source *)

Definition only (c : char) : char -> bool := fun x => (x =? c)%N.
Definition except (c : char) : char -> bool := fun x => negb (x =? c)%N.

(** [.] without the [s] flag *)
Definition anyButLineTerminator : char -> bool :=
  fun x => negb (isLineTerminator x).

(** [[#*\-\[\]`]] *)
Definition isMarker (c : char) : bool :=
  (c =? hash)%N || (c =? star)%N || (c =? dash)%N || (c =? lbracket)%N
  || (c =? rbracket)%N || (c =? backtick)%N.

(** [[.!?]] *)
Definition isSentencePunct (c : char) : bool :=
  (c =? dot)%N || (c =? bang)%N || (c =? question)%N.

(** [/^#\s+(.+)$/m] *)
Definition reH1 : regexp :=
  RegExp [AssertStart; Class (only hash); ClassPlus isWhiteSpace;
          GroupPlus anyButLineTerminator; AssertEnd] true.

(** [/^##\s+(.+)$/m] *)
Definition reH2 : regexp :=
  RegExp [AssertStart; Class (only hash); Class (only hash);
          ClassPlus isWhiteSpace; GroupPlus anyButLineTerminator;
          AssertEnd] true.

(** [/^[#*\-\[\]`]/] *)
Definition reMarker : regexp :=
  RegExp [AssertStart; Class isMarker] false.

(** [/[.!?]\s/] *)
Definition reSentenceEnd : regexp :=
  RegExp [Class isSentencePunct; Class isWhiteSpace] false.

(** [/\[([^\]]+)\]\([^\)]+\)/g] *)
Definition reLink : regexp :=
  RegExp [Class (only lbracket); GroupPlus (except rbracket);
          Class (only rbracket); Class (only lparen);
          ClassPlus (except rparen); Class (only rparen)] false.

(** [/\*\*([^*]+)\*\*/g] *)
Definition reBold : regexp :=
  RegExp [Class (only star); Class (only star); GroupPlus (except star);
          Class (only star); Class (only star)] false.

(** [/\*([^*]+)\*/g] *)
Definition reItalic : regexp :=
  RegExp [Class (only star); GroupPlus (except star); Class (only star)] false.

(** [/`([^`]+)`/g] *)
Definition reCode : regexp :=
  RegExp [Class (only backtick); GroupPlus (except backtick);
          Class (only backtick)] false.

(** ** The extractor *)

Record ReadmeData : Type := mkReadmeData {
  title : jsstring;
  description : option jsstring
}.

Section Extractor.

(** [String.prototype.toUpperCase] on a single code unit outside Basic
    Latin: the Unicode case mapping is not part of the repository, so the
    extractor is read over an arbitrary one. *)
Variable upperTable : char -> jsstring.

Definition toUpperUnit (c : char) : jsstring :=
  if (97 <=? c)%N && (c <=? 122)%N then [(c - 32)%N]
  else if (c <? 128)%N then [c]
  else upperTable c.

(** [s.toUpperCase()] for a string of at most one unit, which is all
    the source applies it to. *)
Definition toUpperCase (s : jsstring) : jsstring := flat_map toUpperUnit s.

(** [s.charAt(0)] *)
Definition charAt0 (s : jsstring) : jsstring :=
  match s with
  | c :: _ => [c]
  | [] => []
  end.

(** [s.slice(1)] *)
Definition slice1 (s : jsstring) : jsstring := tl s.

Definition formatRepoName (repoName : jsstring) : jsstring :=
  join [space]
    (map (fun word => toUpperCase (charAt0 word) ++ slice1 word)
       (split dash repoName)).

Definition extractTitle (content repoName : jsstring)
  : completion jsstring :=
  match stringMatch reH1 content with
  | Some h1Match => t <- group h1Match 1 ;; Normal (trim t)
  | None =>
  match stringMatch reH2 content with
  | Some h2Match => t <- group h2Match 1 ;; Normal (trim t)
  | None =>
      let lines :=
        filter (fun line => truthy (trim line)) (split LF content) in
      if 0 <? length lines then
        l <- item lines 0 ;;
        let firstLine := trim l in
        if (0 <? length firstLine) && (length firstLine <? 100)
           && negb (match stringMatch reMarker firstLine with
                    | Some _ => true
                    | None => false
                    end)
        then Normal firstLine
        else Normal (formatRepoName repoName)
      else Normal (formatRepoName repoName)
  end
  end.

(** The first loop of [extractDescription]: [i] is the loop index and [n]
    the number of iterations that remain, [Math.min(5, lines.length) - i]. *)
Fixpoint skipLoop (n : nat) (lines : list jsstring) (i startIndex : nat)
  : completion nat :=
  match n with
  | 0 => Normal startIndex
  | S n' =>
      l <- item lines i ;;
      let line := trim l in
      if startsWith hash line || (length line =? 0)
      then skipLoop n' lines (S i) (i + 1)
      else Normal startIndex
  end.

(** The second loop, with its three [break]s and its [continue]; [n] is
    [lines.length - i]. *)
Fixpoint collectLoop (n : nat) (lines : list jsstring) (i : nat)
    (description : jsstring) : completion jsstring :=
  match n with
  | 0 => Normal description
  | S n' =>
      l <- item lines i ;;
      let line := trim l in
      if startsWith hash line then Normal description
      else if (length description =? 0) && (length line =? 0)
      then collectLoop n' lines (S i) description
      else if 0 <? length line then
        let description :=
          description ++ (if truthy description then [space] else [])
                      ++ line in
        if 150 <? length description then
          match stringMatch reSentenceEnd description with
          | Some sentenceEnd =>
              Normal (trim (substring0 (index sentenceEnd + 1) description))
          | None => Normal description
          end
        else collectLoop n' lines (S i) description
      else if 0 <? length description then Normal description
      else collectLoop n' lines (S i) description
  end.

(** The clean-up after the loops. *)
Definition cleanUp (description : jsstring) : jsstring :=
  trim (replaceAll reCode
         (replaceAll reItalic
           (replaceAll reBold
             (replaceAll reLink description)))).

Definition extractDescription (content : jsstring)
  : completion (option jsstring) :=
  let lines := split LF content in
  startIndex <- skipLoop (Nat.min 5 (length lines)) lines 0 0 ;;
  description <-
    collectLoop (length lines - startIndex) lines startIndex [] ;;
  let description := cleanUp description in
  Normal (if 0 <? length description then Some description else None).

Definition parseReadme (content repoName : jsstring)
  : completion ReadmeData :=
  t <- extractTitle content repoName ;;
  d <- extractDescription content ;;
  Normal (mkReadmeData t d).

End Extractor.

(** The list form of the two loops, used to reason about them. *)

Fixpoint takeWhile {A : Type} (f : A -> bool) (l : list A) : list A :=
  match l with
  | x :: l' => if f x then x :: takeWhile f l' else []
  | [] => []
  end.

(** A line the first loop passes over. *)
Definition skippable (l : jsstring) : bool :=
  startsWith hash (trim l) || (length (trim l) =? 0).

(** What the second loop does when a line is appended. *)
Definition appended (description line : jsstring) : jsstring :=
  description ++ (if truthy description then [space] else []) ++ line.

Definition cutAtSentence (description : jsstring) : jsstring :=
  match stringMatch reSentenceEnd description with
  | Some sentenceEnd =>
      trim (substring0 (index sentenceEnd + 1) description)
  | None => description
  end.

Fixpoint collect (lines : list jsstring) (description : jsstring)
  : jsstring :=
  match lines with
  | [] => description
  | l :: rest =>
      let line := trim l in
      if startsWith hash line then description
      else match line, description with
           | [], [] => collect rest description
           | [], _ :: _ => description
           | _ :: _, _ =>
               if 150 <? length (appended description line)
               then cutAtSentence (appended description line)
               else collect rest (appended description line)
           end
  end.

(** Where a greedy run over the class [p] cannot go on. *)
Definition stopsAt (p : char -> bool) (s : jsstring) : bool :=
  match s with
  | [] => true
  | x :: _ => negb (p x)
  end.

(** The unit before the position reached after reading [u]. *)
Definition prevAfter (prev : option char) (u : jsstring) : option char :=
  fold_left (fun _ c => Some c) u prev.

(** The number of capturing groups of a pattern. *)
Fixpoint groupCount (r : list atom) : nat :=
  match r with
  | GroupPlus _ :: r' => S (groupCount r')
  | _ :: r' => groupCount r'
  | [] => 0
  end.

(** The first place where a sentence ends: one of [.!?] with white space
    after it. *)
Fixpoint firstBoundary (s : jsstring) : option nat :=
  match s with
  | c :: s' =>
      match s' with
      | x :: _ =>
          if isSentencePunct c && isWhiteSpace x then Some 0
          else option_map S (firstBoundary s')
      | [] => None
      end
  | [] => None
  end.

(** The three kinds of line the second loop tells apart. *)
Definition blank (l : jsstring) : bool := length (trim l) =? 0.
Definition heading (l : jsstring) : bool := startsWith hash (trim l).
Definition paragraphLine (l : jsstring) : bool :=
  negb (blank l) && negb (heading l).

(** A sample first sentence of 154 units, and a line that goes on after
    it. *)
Definition sampleSentence : jsstring :=
  lit "This project provides a small command line tool that reads a folder of notes and builds a static site from them, with search and tags included by default.".

Definition sampleLine : jsstring := sampleSentence ++ lit " It also ships a theme.".

(** A string whose first unit is one of [#*-[]`]. *)
Definition startsWithMarker (s : jsstring) : bool :=
  match s with
  | c :: _ => isMarker c
  | [] => false
  end.

(** The fallback title read unit by unit: a dash becomes a space, the
    unit at the start of a word is put in upper case, every other unit is
    kept. *)
Fixpoint titleCase (up : char -> jsstring) (wordStart : bool)
    (s : jsstring) : jsstring :=
  match s with
  | [] => []
  | c :: s' =>
      if (c =? dash)%N then space :: titleCase up true s'
      else (if wordStart then toUpperUnit up c else [c])
             ++ titleCase up false s'
  end.

(** A case table that maps every unit outside Basic Latin to itself. *)
Definition sameUnit (c : char) : jsstring := [c].

(** A line at which the level-1 pattern can start: a [#] alone, or a [#]
    with white space after it. *)
Definition h1Candidate (l : jsstring) : bool :=
  match l with
  | c :: [] => (c =? hash)%N
  | c :: x :: _ => (c =? hash)%N && isWhiteSpace x
  | [] => false
  end.

(** The same for the level-2 pattern. *)
Definition h2Candidate (l : jsstring) : bool :=
  match l with
  | c :: c' :: [] => (c =? hash)%N && (c' =? hash)%N
  | c :: c' :: x :: _ => (c =? hash)%N && (c' =? hash)%N && isWhiteSpace x
  | _ => false
  end.

(** What follows a line in the document: nothing, or a line feed and the
    lines after it. *)
Definition lineTail (after : list jsstring) : jsstring :=
  match after with
  | [] => []
  | _ => LF :: join [LF] after
  end.

(** The title read line by line, as a heading pattern applied to each line
    on its own: the trimmed capture of the first line that matches. *)
Fixpoint firstHeadingLine (re : regexp) (lines : list jsstring)
  : option jsstring :=
  match lines with
  | [] => None
  | l :: ls =>
      match stringMatch re l with
      | Some e => Some (trim (dollar1 (groups e)))
      | None => firstHeadingLine re ls
      end
  end.

Definition titleByLines (content : jsstring) : option jsstring :=
  match firstHeadingLine reH1 (split LF content) with
  | Some t => Some t
  | None => firstHeadingLine reH2 (split LF content)
  end.

(** Markdown with decorations that do not nest: a description made of
    plain text, links, bold and italic text and inline code. *)
Inductive segment : Type :=
| Plain (text : jsstring)
| Link (text url : jsstring)
| Bold (text : jsstring)
| Italic (text : jsstring)
| Code (text : jsstring).

Definition render (g : segment) : jsstring :=
  match g with
  | Plain t => t
  | Link t u => lbracket :: t ++ rbracket :: lparen :: u ++ [rparen]
  | Bold t => star :: star :: t ++ [star; star]
  | Italic t => star :: t ++ [star]
  | Code t => backtick :: t ++ [backtick]
  end.

Definition innerText (g : segment) : jsstring :=
  match g with
  | Plain t | Link t _ | Bold t | Italic t | Code t => t
  end.

Definition markdown (gs : list segment) : jsstring := flat_map render gs.
Definition textOf (gs : list segment) : jsstring := flat_map innerText gs.

(** A unit that opens no decoration. *)
Definition plainUnit (c : char) : bool :=
  negb (c =? lbracket)%N && negb (c =? star)%N && negb (c =? backtick)%N.

Definition plainText (t : jsstring) : bool := forallb plainUnit t.

(** The inner text of a decoration is plain and not empty; the text of a
    link holds no [']'], and its address is not empty and holds no
    [')']. *)
Definition okSegment (g : segment) : bool :=
  match g with
  | Plain t => plainText t
  | Link t u =>
      truthy t && plainText t && forallb (except rbracket) t
      && truthy u && forallb (except rparen) u
  | Bold t | Italic t | Code t => truthy t && plainText t
  end.

(** No italic text is directly followed by a star. *)
Fixpoint italicsApart (gs : list segment) : bool :=
  match gs with
  | [] => true
  | Italic _ :: gs' =>
      negb (startsWith star (markdown gs')) && italicsApart gs'
  | _ :: gs' => italicsApart gs'
  end.

Definition wellFormed (gs : list segment) : bool :=
  forallb okSegment gs && italicsApart gs.

(** The order in which the clean-up removes the decorations. *)
Definition level (g : segment) : nat :=
  match g with
  | Plain _ => 0
  | Code _ => 1
  | Italic _ => 2
  | Bold _ => 3
  | Link _ _ => 4
  end.

Definition unlink (g : segment) : segment :=
  match g with Link t _ => Plain t | _ => g end.
Definition unbold (g : segment) : segment :=
  match g with Bold t => Plain t | _ => g end.
Definition unitalic (g : segment) : segment :=
  match g with Italic t => Plain t | _ => g end.
Definition uncode (g : segment) : segment :=
  match g with Code t => Plain t | _ => g end.

(** A description that is empty, or whose first unit is not white space:
    what the second loop holds at every iteration. *)
Definition startsClean (d : jsstring) : bool :=
  match d with
  | [] => true
  | x :: _ => negb (isWhiteSpace x)
  end.

(** A name written in Basic Latin only. *)
Definition basicLatin (s : jsstring) : bool :=
  forallb (fun c => (c <? 128)%N) s.

(** A line in which no line terminator is directly followed by a [#]: a
    line without line terminators is one, and so is a line that ends with a
    carriage return. *)
Fixpoint quietLine (l : jsstring) : bool :=
  match l with
  | c :: l' =>
      negb (isLineTerminator c && startsWith hash l') && quietLine l'
  | [] => true
  end.

(** ** Strings: basic facts *)

Lemma trimStart_length (s : jsstring) : length (trimStart s) <= length s.
Proof.
  induction s as [|c s IH]; simpl; [lia|].
  destruct (isWhiteSpace c); simpl; lia.
Qed.

Lemma trimEnd_length (s : jsstring) : length (trimEnd s) <= length s.
Proof.
  induction s as [|c s IH]; simpl; [lia|].
  destruct (trimEnd s); [destruct (isWhiteSpace c)|]; simpl in *; lia.
Qed.

Lemma trim_length (s : jsstring) : length (trim s) <= length s.
Proof.
  unfold trim. etransitivity; [apply trimEnd_length|apply trimStart_length].
Qed.

Lemma trimStart_head (s : jsstring) (c : char) (t : jsstring) :
  trimStart s = c :: t -> isWhiteSpace c = false.
Proof.
  induction s as [|x s IH]; simpl; [discriminate|].
  destruct (isWhiteSpace x) eqn:E; [exact IH|].
  intros H; injection H as -> _. exact E.
Qed.

Lemma trimStart_run (ws s : jsstring) :
  forallb isWhiteSpace ws = true -> trimStart (ws ++ s) = trimStart s.
Proof.
  induction ws as [|x ws IH]; simpl; [reflexivity|].
  intros H; apply andb_prop in H as [-> H]. auto.
Qed.

(** [trimEnd] keeps a first unit that is not white space. *)
Lemma trimEnd_head (c : char) (s : jsstring) :
  isWhiteSpace c = false -> exists t, trimEnd (c :: s) = c :: t.
Proof.
  intros H. simpl. rewrite H.
  destruct (trimEnd s) as [|y t]; [now exists []|now exists (y :: t)].
Qed.

Lemma trimEnd_keeps_head (s : jsstring) (c : char) (t : jsstring) :
  trimEnd s = c :: t -> exists u, s = c :: u.
Proof.
  destruct s as [|x s]; simpl; [discriminate|].
  destruct (trimEnd s); [destruct (isWhiteSpace x)|];
    intros H; try discriminate; injection H as -> _; now exists s.
Qed.

(** A non-empty trimmed string starts with a unit that is not white
    space. *)
Lemma trim_head (s : jsstring) (c : char) (t : jsstring) :
  trim s = c :: t -> isWhiteSpace c = false.
Proof.
  unfold trim. intros H.
  destruct (trimEnd_keeps_head _ _ _ H) as [u Hu].
  exact (trimStart_head _ _ _ Hu).
Qed.

(** An indented line loses its indentation. *)
Lemma trim_indented (ws : jsstring) (c : char) (s : jsstring) :
  forallb isWhiteSpace ws = true -> isWhiteSpace c = false ->
  exists t, trim (ws ++ c :: s) = c :: t.
Proof.
  intros Hws Hc. unfold trim. rewrite (trimStart_run _ _ Hws). simpl trimStart.
  rewrite Hc. apply (trimEnd_head _ s Hc).
Qed.

Lemma trimEnd_fixed (s : jsstring) (c : char) :
  isWhiteSpace c = false -> trimEnd (s ++ [c]) = s ++ [c].
Proof.
  intros Hc. induction s as [|a s IH]; simpl; [now rewrite Hc|].
  rewrite IH. now destruct s.
Qed.

(** A string that starts and ends with units other than white space is
    its own trim. *)
Lemma trim_fixed (s : jsstring) (c : char) :
  startsClean (s ++ [c]) = true -> isWhiteSpace c = false ->
  trim (s ++ [c]) = s ++ [c].
Proof.
  intros Hs Hc. unfold trim.
  assert (E : trimStart (s ++ [c]) = s ++ [c]).
  { destruct s as [|a s]; simpl in *; [now rewrite Hc|].
    apply negb_true_iff in Hs. now rewrite Hs. }
  rewrite E. now apply trimEnd_fixed.
Qed.

(** ** [split] and [join] *)

Lemma split_nonempty (sep : char) (s : jsstring) : split sep s <> [].
Proof.
  destruct s as [|c s]; simpl; [discriminate|].
  destruct (c =? sep)%N; [discriminate|].
  destruct (split sep s); discriminate.
Qed.

Lemma join_cons (sep w : jsstring) (ws : list jsstring) :
  ws <> [] -> join sep (w :: ws) = w ++ sep ++ join sep ws.
Proof. destruct ws; [congruence|reflexivity]. Qed.

(** Joining the pieces with the separator gives the string back. *)
Lemma join_split (sep : char) (s : jsstring) :
  join [sep] (split sep s) = s.
Proof.
  induction s as [|c s IH]; [reflexivity|].
  simpl split. destruct (c =? sep)%N eqn:E.
  - apply N.eqb_eq in E; subst c.
    rewrite join_cons by apply split_nonempty. simpl. now rewrite IH.
  - pose proof (split_nonempty sep s) as NE.
    destruct (split sep s) as [|w ws]; [congruence|].
    destruct ws as [|w' ws]; simpl in *; now rewrite IH.
Qed.

(** ** The matcher *)

Section Greedy.

Variable p : char -> bool.
Variable k : option char -> jsstring -> option matched.

Lemma greedy_stop (s : jsstring) : stopsAt p s = true -> greedy p k s = None.
Proof.
  destruct s as [|c s]; simpl; [reflexivity|].
  intros H; apply negb_true_iff in H. now rewrite H.
Qed.

(** The quantifier takes the longest run when the rest of the pattern
    matches after it. *)
Lemma greedy_max (run rest : jsstring) (r : matched) :
  run <> [] -> forallb p run = true -> stopsAt p rest = true ->
  k (prevAfter None run) rest = Some r ->
  greedy p k (run ++ rest) = Some (run, r).
Proof.
  induction run as [|c run IH]; [congruence|].
  intros _ Hp Hstop Hk. simpl in Hp. apply andb_prop in Hp as [Hc Hp].
  simpl. rewrite Hc. destruct run as [|c' run'].
  - simpl. rewrite (greedy_stop _ Hstop). simpl in Hk. now rewrite Hk.
  - rewrite IH; [reflexivity|discriminate|exact Hp|exact Hstop|].
    exact Hk.
Qed.

(** What a successful greedy match took, and where the rest of the pattern
    went on. *)
Lemma greedy_inv (s run : jsstring) (r : matched) :
  greedy p k s = Some (run, r) ->
  exists rest, s = run ++ rest /\ run <> [] /\ forallb p run = true /\
               k (prevAfter None run) rest = Some r.
Proof.
  revert run. induction s as [|c s IH]; intros run; simpl; [discriminate|].
  destruct (p c) eqn:Hc; [|discriminate].
  destruct (greedy p k s) as [[run' r']|] eqn:G.
  - intros H; injection H as <- <-.
    destruct (IH _ eq_refl) as (rest & -> & NE & Hp & Hk).
    exists rest. repeat split; [discriminate|simpl; now rewrite Hc|].
    destruct run'; [congruence|exact Hk].
  - destruct (k (Some c) s) as [r'|] eqn:K; [|discriminate].
    intros H; injection H as <- <-.
    exists s. repeat split; [discriminate|simpl; now rewrite Hc|exact K].
Qed.

End Greedy.

Lemma prevAfter_app (prev : option char) (u v : jsstring) :
  prevAfter prev (u ++ v) = prevAfter (prevAfter prev u) v.
Proof. apply fold_left_app. Qed.

Lemma prevAfter_cons (prev : option char) (c : char) (u : jsstring) :
  prevAfter prev (c :: u) = prevAfter (Some c) u.
Proof. reflexivity. Qed.

(** A match spans no more than the input, and its captures fit in it. *)
Lemma matchAt_bounds (m : bool) (r : list atom) :
  forall prev s n caps,
    matchAt m r prev s = Some (n, caps) ->
    n <= length s /\ length (concat caps) <= n.
Proof.
  induction r as [|a r IH]; intros prev s n caps; simpl.
  - intros H; injection H as <- <-. simpl; lia.
  - destruct a.
    + destruct (atLineStart m prev); [apply IH|discriminate].
    + destruct (atLineEnd m s); [apply IH|discriminate].
    + destruct s as [|c s]; [discriminate|].
      destruct (p c); [|discriminate].
      destruct (matchAt m r (Some c) s) as [[n' caps']|] eqn:E;
        [|discriminate].
      intros H; injection H as <- <-.
      apply IH in E. simpl. lia.
    + destruct (greedy p (matchAt m r) s) as [[run [n' caps']]|] eqn:G;
        [|discriminate].
      intros H; injection H as <- <-.
      apply greedy_inv in G as (rest & -> & _ & _ & K).
      apply IH in K. rewrite length_app. lia.
    + destruct (greedy p (matchAt m r) s) as [[run [n' caps']]|] eqn:G;
        [|discriminate].
      intros H; injection H as <- <-.
      apply greedy_inv in G as (rest & -> & _ & _ & K).
      apply IH in K. simpl. rewrite !length_app. lia.
Qed.

Lemma dollar1_length (caps : list jsstring) :
  length (dollar1 caps) <= length (concat caps).
Proof.
  unfold dollar1.
  destruct caps as [|c caps]; simpl; [lia|]. rewrite length_app. lia.
Qed.

(** Replacing matches by their first capture never makes a string
    longer. *)
Lemma replaceFrom_length (re : regexp) (s : jsstring) :
  forall prev skip,
    length (replaceFrom re prev s skip) + Nat.min skip (length s)
    <= length s.
Proof.
  induction s as [|c s IH]; intros prev skip; simpl.
  - destruct skip; [|simpl; lia].
    destruct (matchAt (multiline re) (pattern re) prev []) as [[n caps]|] eqn:E;
      [|simpl; lia].
    apply matchAt_bounds in E. pose proof (dollar1_length caps).
    simpl in *. lia.
  - destruct skip as [|k]; [|specialize (IH (Some c) k); lia].
    destruct (matchAt (multiline re) (pattern re) prev (c :: s))
      as [[n caps]|] eqn:E.
    + apply matchAt_bounds in E. pose proof (dollar1_length caps).
      destruct n as [|n]; rewrite length_app; simpl in *.
      * specialize (IH (Some c) 0). lia.
      * specialize (IH (Some c) n).
        rewrite Nat.min_l in IH by lia. lia.
    + specialize (IH (Some c) 0). simpl. lia.
Qed.

Lemma replaceAll_length (re : regexp) (s : jsstring) :
  length (replaceAll re s) <= length s.
Proof.
  pose proof (replaceFrom_length re s None 0). unfold replaceAll. lia.
Qed.

Lemma cleanUp_length (d : jsstring) : length (cleanUp d) <= length d.
Proof.
  unfold cleanUp.
  repeat (etransitivity; [first [apply trim_length|apply replaceAll_length]|]).
  reflexivity.
Qed.

(** ** The loops of [extractDescription], as list functions *)

Lemma skipn_item {A : Type} (l : list A) (i : nat) :
  i < length l -> exists x, nth_error l i = Some x /\ skipn i l = x :: skipn (S i) l.
Proof.
  revert i. induction l as [|y l IH]; intros i H; simpl in H; [lia|].
  destruct i as [|i]; [now exists y|].
  destruct (IH i) as (x & E1 & E2); [lia|]. now exists x.
Qed.

(** The first loop stops at the first line, among the first [n], that is
    neither blank nor a heading. *)
Lemma skipLoop_spec (n : nat) (lines : list jsstring) :
  forall i, i + n <= length lines ->
    skipLoop n lines i i
    = Normal (i + length (takeWhile skippable (firstn n (skipn i lines)))).
Proof.
  induction n as [|n IH]; intros i H; simpl.
  - f_equal. lia.
  - destruct (skipn_item lines i) as (l & E1 & E2); [lia|].
    unfold item. rewrite E1, E2.
    specialize (IH (S i)). remember (skipn (S i) lines) as rest.
    simpl. fold (skippable l).
    destruct (skippable l); simpl; [|f_equal; lia].
    replace (i + 1) with (S i) by lia.
    rewrite IH by lia. f_equal. lia.
Qed.

Lemma collectLoop_spec (n : nat) (lines : list jsstring) :
  forall i d, i + n = length lines ->
    collectLoop n lines i d = Normal (collect (skipn i lines) d).
Proof.
  induction n as [|n IH]; intros i d H; simpl.
  - rewrite skipn_all2 by lia. reflexivity.
  - destruct (skipn_item lines i) as (l & E1 & E2); [lia|].
    unfold item. rewrite E1, E2.
    pose proof (fun d => IH (S i) d) as IH'. clear IH.
    remember (skipn (S i) lines) as rest. simpl.
    destruct (startsWith hash (trim l)); [reflexivity|].
    fold (appended d (trim l)). unfold cutAtSentence.
    destruct (trim l) as [|c t], d as [|x d']; simpl length; simpl andb;
      cbv iota; try (apply IH'; lia); try reflexivity.
    + destruct (150 <? _);
        [destruct (stringMatch _ _); reflexivity|apply IH'; lia].
    + destruct (150 <? _);
        [destruct (stringMatch _ _); reflexivity|apply IH'; lia].
Qed.

(** The two loops never raise: the first gives the length of the longest
    run of blank and heading lines at the front of the first five lines,
    the second the accumulation from there on. *)
Lemma loops_spec (lines : list jsstring) :
  let startIndex := length (takeWhile skippable (firstn 5 lines)) in
  skipLoop (Nat.min 5 (length lines)) lines 0 0 = Normal startIndex
  /\ collectLoop (length lines - startIndex) lines startIndex []
     = Normal (collect (skipn startIndex lines) []).
Proof.
  intros startIndex.
  assert (F : firstn (Nat.min 5 (length lines)) lines = firstn 5 lines).
  { destruct (Nat.le_ge_cases 5 (length lines)) as [L|L].
    - now rewrite Nat.min_l.
    - rewrite Nat.min_r by exact L.
      rewrite !firstn_all2 by lia. reflexivity. }
  assert (L : startIndex <= length lines).
  { unfold startIndex. clear F. generalize 5.
    induction lines as [|l ls IH]; intros n.
    - now rewrite firstn_nil.
    - destruct n; simpl; [lia|]. destruct (skippable l); simpl; [|lia].
      specialize (IH n). lia. }
  split.
  - rewrite skipLoop_spec by (cbn [Nat.add]; apply Nat.le_min_r).
    change (skipn 0 lines) with lines. now rewrite F.
  - apply collectLoop_spec. lia.
Qed.

(** [extractDescription] never raises, and is the composition of the two
    loops and the clean-up. *)
Lemma extractDescription_eq (content : jsstring) :
  extractDescription content
  = Normal
      (let lines := split LF content in
       let startIndex := length (takeWhile skippable (firstn 5 lines)) in
       let d := cleanUp (collect (skipn startIndex lines) []) in
       if 0 <? length d then Some d else None).
Proof.
  unfold extractDescription.
  destruct (loops_spec (split LF content)) as [E1 E2].
  rewrite E1. cbn [bind]. rewrite E2. reflexivity.
Qed.

(** ** Searching *)

Lemma matchAt_groups (m : bool) (r : list atom) :
  forall prev s n caps,
    matchAt m r prev s = Some (n, caps) -> length caps = groupCount r.
Proof.
  induction r as [|a r IH]; intros prev s n caps; simpl.
  - intros H; now injection H as _ <-.
  - destruct a.
    + destruct (atLineStart m prev); [apply IH|discriminate].
    + destruct (atLineEnd m s); [apply IH|discriminate].
    + destruct s as [|c s]; [discriminate|].
      destruct (p c); [|discriminate].
      destruct (matchAt m r (Some c) s) as [[n' caps']|] eqn:E;
        [|discriminate].
      intros H; injection H as _ <-. exact (IH _ _ _ _ E).
    + destruct (greedy p (matchAt m r) s) as [[run [n' caps']]|] eqn:G;
        [|discriminate].
      intros H; injection H as _ <-.
      apply greedy_inv in G as (rest & _ & _ & _ & K). exact (IH _ _ _ _ K).
    + destruct (greedy p (matchAt m r) s) as [[run [n' caps']]|] eqn:G;
        [|discriminate].
      intros H; injection H as _ <-.
      apply greedy_inv in G as (rest & _ & _ & _ & K).
      simpl. f_equal. exact (IH _ _ _ _ K).
Qed.

(** A search result is a match at some position of the input. *)
Lemma searchFrom_inv (re : regexp) (s : jsstring) :
  forall prev i e,
    searchFrom re prev s i = Some e ->
    exists u v, s = u ++ v /\ index e = i + length u /\
      matchAt (multiline re) (pattern re) (prevAfter prev u) v
      = Some (span e, groups e).
Proof.
  induction s as [|c s IH]; intros prev i e; simpl.
  - destruct (matchAt _ _ prev []) as [[n caps]|] eqn:E; [|discriminate].
    intros H; injection H as <-. exists [], []. simpl. repeat split; [lia|].
    exact E.
  - destruct (matchAt _ _ prev (c :: s)) as [[n caps]|] eqn:E.
    + intros H; injection H as <-. exists [], (c :: s). simpl.
      repeat split; [lia|exact E].
    + intros H. apply IH in H as (u & v & -> & Hi & Hm).
      exists (c :: u), v. simpl. repeat split; [lia|exact Hm].
Qed.

(** A heading match has its one capture. *)
Lemma stringMatch_group1 (re : regexp) (s : jsstring) (e : execResult) :
  groupCount (pattern re) = 1 ->
  stringMatch re s = Some e -> exists t, groups e = [t] /\ group e 1 = Normal t.
Proof.
  intros G H. apply searchFrom_inv in H as (u & v & _ & _ & M).
  apply matchAt_groups in M. rewrite G in M.
  destruct (groups e) as [|t [|]] eqn:E; try discriminate.
  exists t. unfold group, item. now rewrite E.
Qed.

(** [extractTitle] never raises. *)
Lemma extractTitle_total (up : char -> jsstring) (content repoName : jsstring) :
  exists t, extractTitle up content repoName = Normal t.
Proof.
  unfold extractTitle.
  destruct (stringMatch reH1 content) as [e|] eqn:E1.
  - destruct (stringMatch_group1 reH1 content e eq_refl E1) as (t & _ & ->).
    now exists (trim t).
  - destruct (stringMatch reH2 content) as [e|] eqn:E2.
    + destruct (stringMatch_group1 reH2 content e eq_refl E2) as (t & _ & ->).
      now exists (trim t).
    + destruct (filter _ _) as [|l ls]; simpl; [eauto|].
      destruct (_ && _); eauto.
Qed.

(** ** The prefix scan *)

Section TakeWhile.

Context {A : Type} (f : A -> bool) (d : A).

Lemma takeWhile_firstn_length (n : nat) (l : list A) :
  length (takeWhile f (firstn n l)) <= Nat.min n (length l).
Proof.
  revert n. induction l as [|x l IH]; intros [|n]; simpl; try lia.
  destruct (f x); simpl; [|lia]. specialize (IH n). lia.
Qed.

Lemma takeWhile_firstn_all (n : nat) (l : list A) :
  forallb f (firstn (length (takeWhile f (firstn n l))) l) = true.
Proof.
  revert n. induction l as [|x l IH]; intros [|n]; simpl; try reflexivity.
  destruct (f x) eqn:E; simpl; [|reflexivity]. now rewrite E, IH.
Qed.

Lemma takeWhile_firstn_stop (n : nat) (l : list A) :
  let k := length (takeWhile f (firstn n l)) in
  k = Nat.min n (length l) \/ f (nth k l d) = false.
Proof.
  revert n. induction l as [|x l IH]; intros [|n]; simpl; auto.
  destruct (f x) eqn:E; simpl; [|now right].
  destruct (IH n) as [H|H]; [left; now f_equal|now right].
Qed.

End TakeWhile.

(** C5. The start index is found by a scan of a prefix of the first five
    lines: every line before it is blank or a heading, and either the
    window of [min 5 (lines.length)] lines is used up or the line at the
    start index is neither; lines after that one play no part.  So
    ["# A"; "text"; "# B"] gives 1 and not 2, and the description of
    "# Title", a blank line and "This is the description." is that last
    line. *)
Theorem C5_prefix_scan :
  (forall lines : list jsstring,
     exists startIndex,
       skipLoop (Nat.min 5 (length lines)) lines 0 0 = Normal startIndex
       /\ startIndex <= Nat.min 5 (length lines)
       /\ forallb skippable (firstn startIndex lines) = true
       /\ (startIndex = Nat.min 5 (length lines)
           \/ skippable (nth startIndex lines []) = false))
  /\ skipLoop 3 [lit "# A"; lit "text"; lit "# B"] 0 0 = Normal 1
  /\ extractDescription
       (lit "# Title" ++ [LF] ++ [LF] ++ lit "This is the description.")
     = Normal (Some (lit "This is the description.")).
Proof.
  split; [|split; vm_compute; reflexivity].
  intros lines.
  exists (length (takeWhile skippable (firstn (Nat.min 5 (length lines)) lines))).
  rewrite skipLoop_spec by (cbn [Nat.add]; apply Nat.le_min_r).
  change (skipn 0 lines) with lines. cbn [Nat.add].
  split; [reflexivity|]. split; [|split].
  - etransitivity; [apply takeWhile_firstn_length|]. lia.
  - apply takeWhile_firstn_all.
  - destruct (takeWhile_firstn_stop skippable [] (Nat.min 5 (length lines)) lines)
      as [H|H]; [left|now right].
    rewrite H. lia.
Qed.

(** ** Accumulation *)

Lemma appended_nil (line : jsstring) : appended [] line = line.
Proof. reflexivity. Qed.

Lemma appended_cons (c : char) (d line : jsstring) :
  appended (c :: d) line = (c :: d) ++ [space] ++ line.
Proof. reflexivity. Qed.

Lemma appended_length (d line : jsstring) :
  length d <= length (appended d line).
Proof. unfold appended. rewrite length_app. lia. Qed.

Lemma accumulated_length (ws : list jsstring) :
  forall d, length d <= length (fold_left appended ws d).
Proof.
  induction ws as [|w ws IH]; intros d; simpl; [lia|].
  etransitivity; [apply (appended_length d w)|apply IH].
Qed.

(** Appending non-empty lines one by one joins them with single spaces. *)
Lemma accumulated_join (ws : list jsstring) :
  forall d, d <> [] -> Forall (fun w => w <> []) ws ->
    fold_left appended ws d = join [space] (d :: ws).
Proof.
  induction ws as [|w ws IH]; intros d Hd Hws; [reflexivity|].
  inversion Hws as [|? ? Hw Hws']; subst.
  destruct d as [|c d]; [congruence|].
  cbn [fold_left]. rewrite appended_cons.
  rewrite IH; [|discriminate|exact Hws'].
  destruct ws as [|w' ws]; simpl; rewrite <- ?app_assoc; reflexivity.
Qed.

Lemma accumulated_join_nil (ws : list jsstring) :
  Forall (fun w => w <> []) ws ->
  fold_left appended ws [] = join [space] ws.
Proof.
  destruct ws as [|w ws]; [reflexivity|].
  intros H; inversion H; subst. cbn [fold_left]. rewrite appended_nil.
  now apply accumulated_join.
Qed.

Lemma blank_trim (l : jsstring) : blank l = true -> trim l = [].
Proof.
  unfold blank. intros H. apply Nat.eqb_eq in H. now destruct (trim l).
Qed.

Lemma paragraphLine_trim (l : jsstring) :
  paragraphLine l = true ->
  trim l <> [] /\ startsWith hash (trim l) = false.
Proof.
  unfold paragraphLine, blank, heading. intros H.
  apply andb_prop in H as [H1 H2].
  apply negb_true_iff in H1, H2. split; [|exact H2].
  intros E. now rewrite E in H1.
Qed.

Lemma collect_blanks (blanks rest : list jsstring) :
  forallb blank blanks = true ->
  collect (blanks ++ rest) [] = collect rest [].
Proof.
  induction blanks as [|l ls IH]; [reflexivity|].
  simpl. intros H. apply andb_prop in H as [Hl Hls].
  rewrite (blank_trim l Hl). simpl. auto.
Qed.

Lemma collect_paragraph (ps rest : list jsstring) :
  forall d,
    forallb paragraphLine ps = true ->
    length (fold_left appended (map trim ps) d) <= 150 ->
    (rest = []
     \/ exists l rest', rest = l :: rest'
          /\ (heading l = true
              \/ (blank l = true /\ fold_left appended (map trim ps) d <> []))) ->
    collect (ps ++ rest) d = fold_left appended (map trim ps) d.
Proof.
  induction ps as [|q ps IH]; intros d Hps Hlen Hrest.
  - simpl in *. destruct Hrest as [->|(l & rest' & -> & [Hh|[Hb Hd]])].
    + reflexivity.
    + simpl. unfold heading in Hh. now rewrite Hh.
    + simpl. rewrite (blank_trim l Hb). simpl.
      destruct d; [congruence|reflexivity].
  - simpl in Hps. apply andb_prop in Hps as [Hq Hps].
    destruct (paragraphLine_trim q Hq) as [NE NH].
    cbn [map fold_left] in *. cbn [app collect]. rewrite NH.
    pose proof (accumulated_length (map trim ps) (appended d (trim q))) as L.
    destruct (trim q) as [|c t] eqn:E; [congruence|].
    destruct (Nat.ltb_spec 150 (length (appended d (c :: t)))) as [G|G];
      [lia|].
    now apply IH.
Qed.

(** C6. From the start index on: blank lines before any content are
    passed over, the lines of the first paragraph are appended with single
    spaces between them, and the accumulation ends, with what it has, at a
    heading line (whether or not anything was collected), at a blank line
    once something was collected, or at the end of the lines.  (The
    paragraph is one that stays within the 150-unit threshold.) *)
Theorem C6_accumulation
    (lines blanks ps rest : list jsstring) (i : nat) :
  skipn i lines = blanks ++ ps ++ rest ->
  forallb blank blanks = true ->
  forallb paragraphLine ps = true ->
  length (join [space] (map trim ps)) <= 150 ->
  (rest = []
   \/ exists l rest', rest = l :: rest'
        /\ (heading l = true \/ (blank l = true /\ ps <> []))) ->
  collectLoop (length lines - i) lines i []
  = Normal (join [space] (map trim ps)).
Proof.
  intros Hskip Hb Hp Hlen Hrest.
  assert (NE : Forall (fun w => w <> []) (map trim ps)).
  { apply Forall_forall. intros w Hw. apply in_map_iff in Hw as (l & <- & Hl).
    rewrite forallb_forall in Hp. now apply paragraphLine_trim, Hp. }
  destruct (Nat.le_gt_cases i (length lines)) as [Hi|Hi].
  - rewrite collectLoop_spec by lia.
    rewrite Hskip, collect_blanks by exact Hb.
    rewrite <- (accumulated_join_nil _ NE) in *. f_equal.
    apply collect_paragraph; [exact Hp|exact Hlen|].
    destruct Hrest as [->|(l & rest' & -> & [Hh|[Hl Hps]])]; [now left| |];
      right; exists l, rest'; split; auto.
    right. split; [exact Hl|].
    rewrite (accumulated_join_nil _ NE).
    destruct ps as [|q ps]; [congruence|].
    inversion NE as [|? ? Hq _]; subst.
    destruct (trim q) as [|c t] eqn:E; [congruence|].
    cbn [map]. rewrite E. destruct (map trim ps); discriminate.
  - rewrite skipn_all2 in Hskip by lia.
    destruct blanks, ps; try discriminate.
    replace (length lines - i) with 0 by lia. reflexivity.
Qed.

(** Witness of C6: a blank line, a paragraph of two lines, a blank line
    and more text. *)
Lemma C6_accumulation_witness :
  collectLoop 5
    [lit "# T"; lit ""; lit "first line"; lit "  second line "; lit "";
     lit "next paragraph"] 1 []
  = Normal (lit "first line second line").
Proof.
  apply (C6_accumulation
           [lit "# T"; lit ""; lit "first line"; lit "  second line ";
            lit ""; lit "next paragraph"]
           [lit ""] [lit "first line"; lit "  second line "]
           [lit ""; lit "next paragraph"] 1).
  - reflexivity.
  - reflexivity.
  - reflexivity.
  - vm_compute. lia.
  - right. exists (lit ""), [lit "next paragraph"].
    split; [reflexivity|]. right. split; [reflexivity|discriminate].
Defined.

(** ** Documents without body text *)

Lemma collect_skippable (ls : list jsstring) :
  forallb skippable ls = true -> collect ls [] = [].
Proof.
  induction ls as [|l ls IH]; [reflexivity|].
  simpl. intros H. apply andb_prop in H as [Hl Hls].
  unfold skippable in Hl.
  destruct (startsWith hash (trim l)); [reflexivity|].
  simpl in Hl. apply Nat.eqb_eq in Hl.
  destruct (trim l); [auto|discriminate].
Qed.

Lemma forallb_skipn {A : Type} (f : A -> bool) (k : nat) (l : list A) :
  forallb f l = true -> forallb f (skipn k l) = true.
Proof.
  revert k. induction l as [|x l IH]; intros [|k]; simpl; auto.
  intros H. apply andb_prop in H as [_ H]. auto.
Qed.

(** C9. [parseReadme] returns normally on every input.  The description is
    [null] when the cleaned accumulated string is empty and is that string,
    which is then not empty, otherwise; it is [null] in particular when
    every line is a heading or blank. *)
Theorem C9_never_throws
    (up : char -> jsstring) (content repoName : jsstring) :
  let lines := split LF content in
  exists t d startIndex acc,
    parseReadme up content repoName = Normal (mkReadmeData t d)
    /\ skipLoop (Nat.min 5 (length lines)) lines 0 0 = Normal startIndex
    /\ collectLoop (length lines - startIndex) lines startIndex []
       = Normal acc
    /\ ((cleanUp acc = [] /\ d = None)
        \/ (cleanUp acc <> [] /\ d = Some (cleanUp acc)))
    /\ d <> Some []
    /\ (forallb skippable lines = true -> d = None).
Proof.
  intros lines.
  destruct (extractTitle_total up content repoName) as [t Ht].
  destruct (loops_spec lines) as [Hskip Hcollect].
  set (k := length (takeWhile skippable (firstn 5 lines))) in *.
  set (acc := collect (skipn k lines) []) in *.
  exists t, (if 0 <? length (cleanUp acc) then Some (cleanUp acc) else None),
    k, acc.
  split; [|split; [exact Hskip|split; [exact Hcollect|split; [|split]]]].
  - unfold parseReadme. rewrite Ht, extractDescription_eq. reflexivity.
  - destruct (cleanUp acc) as [|c s]; [left|right]; split;
      try reflexivity; discriminate.
  - destruct (cleanUp acc); discriminate.
  - intros H. unfold acc.
    rewrite collect_skippable by now apply forallb_skipn.
    reflexivity.
Qed.

(** Witness of C9: two headings and nothing else. *)
Lemma C9_never_throws_witness :
  exists t, parseReadme (fun c => [c])
              (lit "# Guide" ++ [LF] ++ lit "## Install" ++ [LF])
              (lit "guide")
            = Normal (mkReadmeData t None).
Proof.
  destruct (C9_never_throws (fun c => [c])
              (lit "# Guide" ++ [LF] ++ lit "## Install" ++ [LF])
              (lit "guide"))
    as (t & d & k & acc & E & _ & _ & _ & _ & H).
  exists t. rewrite E. f_equal. f_equal. apply H. reflexivity.
Defined.

(** ** The end of the first sentence *)

(** The search for [/[.!?]\s/] finds the first sentence boundary. *)
Lemma sentenceEnd_search (s : jsstring) :
  forall prev i,
    searchFrom reSentenceEnd prev s i
    = option_map (fun j => ExecResult (i + j) 2 []) (firstBoundary s).
Proof.
  induction s as [|c s IH]; intros prev i; [reflexivity|].
  cbn [searchFrom reSentenceEnd multiline pattern matchAt firstBoundary].
  destruct s as [|x s'].
  - destruct (isSentencePunct c); reflexivity.
  - destruct (isSentencePunct c); cbn [andb].
    + destruct (isWhiteSpace x).
      * cbn [option_map]. now rewrite Nat.add_0_r.
      * rewrite IH. destruct (firstBoundary (x :: s')); cbn [option_map];
          [now rewrite Nat.add_succ_r|reflexivity].
    + rewrite IH. destruct (firstBoundary (x :: s')); cbn [option_map];
        [now rewrite Nat.add_succ_r|reflexivity].
Qed.

Lemma cutAtSentence_eq (acc : jsstring) :
  cutAtSentence acc
  = match firstBoundary acc with
    | Some j => trim (substring0 (j + 1) acc)
    | None => acc
    end.
Proof.
  unfold cutAtSentence, stringMatch. rewrite sentenceEnd_search.
  destruct (firstBoundary acc); reflexivity.
Qed.

Lemma firstBoundary_app_none (u v : jsstring) :
  firstBoundary (u ++ v) = None ->
  firstBoundary u = None /\ firstBoundary v = None.
Proof.
  induction u as [|c u IH]; [now split|].
  cbn [app firstBoundary]. destruct u as [|x u'].
  - destruct v as [|x v']; [now split|]. cbn [app].
    destruct (isSentencePunct c && isWhiteSpace x); [discriminate|].
    destruct (firstBoundary (x :: v')); [discriminate|now split].
  - cbn [app] in *.
    destruct (isSentencePunct c && isWhiteSpace x); [discriminate|].
    destruct (firstBoundary (x :: u' ++ v)); [discriminate|].
    intros _. destruct (IH eq_refl) as [-> ->]. now split.
Qed.

Lemma firstBoundary_firstn (s : jsstring) :
  forall j, firstBoundary s = Some j ->
    firstBoundary (firstn (j + 1) s) = None.
Proof.
  induction s as [|c s IH]; intros j; [discriminate|].
  cbn [firstBoundary]. destruct s as [|x s']; [discriminate|].
  destruct (isSentencePunct c && isWhiteSpace x) eqn:E.
  - intros H; injection H as <-. reflexivity.
  - destruct (firstBoundary (x :: s')) as [j'|]; [|discriminate].
    intros H; injection H as <-. specialize (IH j' eq_refl).
    change (S j' + 1) with (S (j' + 1)). cbn [firstn].
    replace (j' + 1) with (S j') in * by lia. cbn [firstn] in *.
    cbn [firstBoundary]. rewrite E.
    cbn [firstBoundary] in IH. now rewrite IH.
Qed.

(** The boundary that no boundary precedes is the first one. *)
Lemma firstBoundary_first (u : jsstring) (c x : char) (v : jsstring) :
  isSentencePunct c = true -> isWhiteSpace x = true ->
  firstBoundary (u ++ [c]) = None ->
  firstBoundary (u ++ c :: x :: v) = Some (length u).
Proof.
  intros Hc Hx. induction u as [|a u IH].
  - intros _. cbn. now rewrite Hc, Hx.
  - cbn [app firstBoundary length]. destruct u as [|b u'].
    + cbn [app length] in *.
      destruct (isSentencePunct a && isWhiteSpace c); [discriminate|].
      intros _. rewrite (IH eq_refl). reflexivity.
    + cbn [app length] in *.
      destruct (isSentencePunct a && isWhiteSpace b); [discriminate|].
      destruct (firstBoundary (b :: u' ++ [c])); [discriminate|].
      intros _. rewrite (IH eq_refl). reflexivity.
Qed.

Lemma trimStart_suffix (s : jsstring) : exists w, s = w ++ trimStart s.
Proof.
  induction s as [|c s [w IH]]; [now exists []|].
  simpl. destruct (isWhiteSpace c); [|now exists []].
  exists (c :: w). simpl. now f_equal.
Qed.

Lemma trimEnd_prefix (s : jsstring) : exists w, s = trimEnd s ++ w.
Proof.
  induction s as [|c s [w IH]]; [now exists []|].
  simpl. destruct (trimEnd s) as [|y t].
  - destruct (isWhiteSpace c); [now exists (c :: s)|].
    exists s. reflexivity.
  - exists w. simpl. now f_equal.
Qed.

Lemma firstBoundary_trim (s : jsstring) :
  firstBoundary s = None -> firstBoundary (trim s) = None.
Proof.
  intros H. unfold trim.
  destruct (trimStart_suffix s) as [w Hw]. rewrite Hw in H.
  apply firstBoundary_app_none in H as [_ H].
  destruct (trimEnd_prefix (trimStart s)) as [w' Hw']. rewrite Hw' in H.
  now apply firstBoundary_app_none in H as [H _].
Qed.

(** What the cut leaves has no sentence boundary in it. *)
Lemma cutAtSentence_no_boundary (acc : jsstring) :
  firstBoundary (cutAtSentence acc) = None.
Proof.
  rewrite cutAtSentence_eq. destruct (firstBoundary acc) as [j|] eqn:E.
  - apply firstBoundary_trim, firstBoundary_firstn, E.
  - exact E.
Qed.

(** The accumulation is longer than the threshold only when it is a single
    unfinished or just finished sentence. *)
Lemma collect_bounded (ls : list jsstring) :
  forall d, length d <= 150 ->
    length (collect ls d) <= 150 \/ firstBoundary (collect ls d) = None.
Proof.
  induction ls as [|l ls IH]; intros d Hd; [now left|].
  cbn [collect]. destruct (startsWith hash (trim l)); [now left|].
  destruct (trim l) as [|c t].
  - destruct d; [now apply IH|now left].
  - destruct (Nat.ltb_spec 150 (length (appended d (c :: t)))) as [G|G].
    + right. apply cutAtSentence_no_boundary.
    + now apply IH.
Qed.

Lemma sentencePunct_not_whiteSpace (c : char) :
  isSentencePunct c = true -> isWhiteSpace c = false.
Proof.
  unfold isSentencePunct. intros H.
  repeat (apply orb_prop in H as [H|H]);
    apply N.eqb_eq in H; subst c; reflexivity.
Qed.

(** The accumulation never starts with white space. *)
Lemma appended_startsClean (d line : jsstring) :
  startsClean d = true -> trim line <> [] ->
  startsClean (appended d (trim line)) = true.
Proof.
  intros Hd NE. destruct d as [|x d]; [|exact Hd].
  rewrite appended_nil. destruct (trim line) as [|c t] eqn:E; [congruence|].
  simpl. now rewrite (trim_head _ _ _ E).
Qed.

Lemma collectLoop_threshold
    (n : nat) (lines : list jsstring) (i : nat) (d l : jsstring) :
  nth_error lines i = Some l ->
  paragraphLine l = true ->
  150 < length (appended d (trim l)) ->
  collectLoop (S n) lines i d = Normal (cutAtSentence (appended d (trim l))).
Proof.
  intros Hl Hp Hlen. destruct (paragraphLine_trim l Hp) as [NE NH].
  cbn [collectLoop]. unfold item. rewrite Hl. cbn [bind]. rewrite NH.
  fold (appended d (trim l)). apply Nat.ltb_lt in Hlen. rewrite Hlen.
  destruct (trim l) as [|c t] eqn:E; [congruence|].
  cbn [length Nat.eqb andb Nat.ltb Nat.leb].
  rewrite andb_false_r. unfold cutAtSentence.
  destruct (stringMatch _ _); reflexivity.
Qed.

(** C7. When appending a line takes the accumulation past 150 units the
    loop ends: with the accumulation cut after the first of [.!?] that
    white space follows, if there is one (the [trim] after the cut changes
    nothing, the accumulation never starting with white space), and with
    the whole accumulation otherwise.  The result of the loop is therefore
    longer than 150 units only as far as the end of its first sentence (it
    then holds no sentence boundary), and the description returned is no
    longer than it. *)
Theorem C7_threshold :
  (forall (n : nat) (lines : list jsstring) (i : nat) (d l : jsstring),
     nth_error lines i = Some l ->
     paragraphLine l = true ->
     150 < length (appended d (trim l)) ->
     (forall u c x v,
        appended d (trim l) = u ++ c :: x :: v ->
        isSentencePunct c = true -> isWhiteSpace x = true ->
        firstBoundary (u ++ [c]) = None ->
        collectLoop (S n) lines i d = Normal (trim (u ++ [c]))
        /\ length (trim (u ++ [c])) <= length u + 1
        /\ (startsClean d = true -> trim (u ++ [c]) = u ++ [c]))
     /\ (firstBoundary (appended d (trim l)) = None ->
         collectLoop (S n) lines i d = Normal (appended d (trim l))))
  /\ (forall content : jsstring,
        let lines := split LF content in
        exists startIndex r,
          skipLoop (Nat.min 5 (length lines)) lines 0 0 = Normal startIndex
          /\ collectLoop (length lines - startIndex) lines startIndex []
             = Normal r
          /\ (length r <= 150 \/ firstBoundary r = None)
          /\ length (cleanUp r) <= length r
          /\ extractDescription content
             = Normal (if 0 <? length (cleanUp r) then Some (cleanUp r)
                       else None)).
Proof.
  split.
  - intros n lines i d l Hl Hp Hlen.
    rewrite (collectLoop_threshold n lines i d l Hl Hp Hlen).
    rewrite cutAtSentence_eq. split.
    + intros u c x v E Hc Hx Hu. rewrite E.
      rewrite (firstBoundary_first u c x v Hc Hx Hu).
      unfold substring0.
      replace (u ++ c :: x :: v) with ((u ++ [c]) ++ x :: v)
        by (now rewrite <- app_assoc).
      replace (length u + 1) with (length (u ++ [c]) + 0)
        by (rewrite length_app; simpl; lia).
      rewrite firstn_app_2. cbn [firstn]. rewrite app_nil_r.
      split; [reflexivity|]. split.
      * etransitivity; [apply trim_length|]. rewrite length_app. simpl. lia.
      * intros Hd. apply trim_fixed; [|now apply sentencePunct_not_whiteSpace].
        replace (startsClean (u ++ [c]))
          with (startsClean (u ++ c :: x :: v)) by now destruct u.
        rewrite <- E. apply appended_startsClean; [exact Hd|].
        now apply paragraphLine_trim.
    + intros ->. reflexivity.
  - intros content lines.
    destruct (loops_spec lines) as [Hskip Hcollect].
    exists (length (takeWhile skippable (firstn 5 lines))),
      (collect (skipn (length (takeWhile skippable (firstn 5 lines))) lines)
         []).
    split; [exact Hskip|]. split; [exact Hcollect|]. split; [|split].
    + apply collect_bounded. simpl. lia.
    + apply cleanUp_length.
    + apply extractDescription_eq.
Qed.

(** Witness of C7: a line of 177 units whose first sentence ends at unit
    153. *)
Lemma C7_threshold_witness :
  collectLoop 1 [sampleLine] 0 [] = Normal sampleSentence
  /\ extractDescription sampleLine = Normal (Some sampleSentence).
Proof.
  destruct C7_threshold as [A B]. split.
  - destruct (A 0 [sampleLine] 0 [] sampleLine eq_refl eq_refl) as [A1 _].
    { apply Nat.ltb_lt. vm_compute. reflexivity. }
    destruct (A1 (removelast sampleSentence) dot space
                 (lit "It also ships a theme.")) as [E _].
    + vm_compute. reflexivity.
    + reflexivity.
    + reflexivity.
    + vm_compute. reflexivity.
    + rewrite E. vm_compute. reflexivity.
  - destruct (B sampleLine) as (k & r & E1 & E2 & _ & _ & E).
    vm_compute in E1. injection E1 as <-.
    vm_compute in E2. injection E2 as <-.
    rewrite E. vm_compute. reflexivity.
Defined.

(** ** The fallback title *)

Lemma join_prefix (sep x w : jsstring) (ws : list jsstring) :
  join sep ((x ++ w) :: ws) = x ++ join sep (w :: ws).
Proof. destruct ws; simpl; [reflexivity|now rewrite <- app_assoc]. Qed.

Lemma formatRepoName_words (up : char -> jsstring) (s : jsstring) :
  forall b : bool,
    match split dash s with
    | w :: ws =>
        join [space]
          ((if b then toUpperCase up (charAt0 w) ++ slice1 w else w)
             :: map (fun word => toUpperCase up (charAt0 word) ++ slice1 word)
                  ws)
    | [] => []
    end = titleCase up b s.
Proof.
  induction s as [|c s IH]; intros b.
  - simpl. now destruct b.
  - cbn [split titleCase]. destruct (c =? dash)%N.
    + specialize (IH true). pose proof (split_nonempty dash s) as NE.
      destruct (split dash s) as [|w ws]; [congruence|].
      rewrite join_cons by discriminate.
      cbn [map]. rewrite IH. now destruct b.
    + specialize (IH false). pose proof (split_nonempty dash s) as NE.
      destruct (split dash s) as [|w ws]; [congruence|].
      rewrite <- IH.
      destruct b; cbn [charAt0 slice1 tl toUpperCase flat_map];
        rewrite ?app_nil_r; [|apply (join_prefix _ [c])].
      apply join_prefix.
Qed.

(** [formatRepoName] turns dashes into spaces and capitalises the first
    unit of each word. *)
Lemma formatRepoName_titleCase (up : char -> jsstring) (s : jsstring) :
  formatRepoName up s = titleCase up true s.
Proof.
  unfold formatRepoName. rewrite <- formatRepoName_words.
  pose proof (split_nonempty dash s) as NE.
  destruct (split dash s); [congruence|reflexivity].
Qed.



(** ** The first non-blank line *)

Lemma searchFrom_marker_later (s : jsstring) :
  forall c i, searchFrom reMarker (Some c) s i = None.
Proof. induction s as [|x s IH]; intros c i; simpl; auto. Qed.

(** [/^[#*\-\[\]`]/] looks at the first unit only. *)
Lemma stringMatch_marker (s : jsstring) :
  match stringMatch reMarker s with
  | Some _ => true
  | None => false
  end = startsWithMarker s.
Proof.
  unfold stringMatch. destruct s as [|c s]; [reflexivity|].
  simpl. destruct (isMarker c); [reflexivity|].
  now rewrite searchFrom_marker_later.
Qed.

Lemma filter_nonblank_first (before after : list jsstring) (l : jsstring) :
  forallb blank before = true -> blank l = false ->
  filter (fun line => truthy (trim line)) (before ++ l :: after)
  = l :: filter (fun line => truthy (trim line)) after.
Proof.
  intros Hb Hl. induction before as [|b before IH]; simpl.
  - unfold blank in Hl. destruct (trim l); [discriminate|reflexivity].
  - simpl in Hb. apply andb_prop in Hb as [Hb1 Hb2].
    rewrite (blank_trim b Hb1). simpl. auto.
Qed.

Lemma filter_nonblank_none (lines : list jsstring) :
  forallb blank lines = true ->
  filter (fun line => truthy (trim line)) lines = [].
Proof.
  induction lines as [|b lines IH]; [reflexivity|].
  simpl. intros H. apply andb_prop in H as [Hb1 Hb2].
  rewrite (blank_trim b Hb1). simpl. auto.
Qed.

(** Without a heading match, the title is decided by the first non-blank
    line. *)
Lemma extractTitle_first_line
    (up : char -> jsstring) (content repoName : jsstring)
    (before after : list jsstring) (l : jsstring) :
  stringMatch reH1 content = None ->
  stringMatch reH2 content = None ->
  split LF content = before ++ l :: after ->
  forallb blank before = true -> blank l = false ->
  extractTitle up content repoName
  = Normal (if (length (trim l) <? 100) && negb (startsWithMarker (trim l))
            then trim l else formatRepoName up repoName).
Proof.
  intros H1 H2 Hs Hb Hl. unfold extractTitle. rewrite H1, H2, Hs.
  rewrite (filter_nonblank_first before after l Hb Hl).
  cbn [length Nat.ltb Nat.leb item nth_error bind].
  rewrite stringMatch_marker.
  unfold blank in Hl. destruct (trim l) as [|c t]; [discriminate|].
  cbn [length Nat.ltb Nat.leb andb].
  destruct (_ && _); reflexivity.
Qed.

Lemma extractTitle_no_line
    (up : char -> jsstring) (content repoName : jsstring) :
  stringMatch reH1 content = None ->
  stringMatch reH2 content = None ->
  forallb blank (split LF content) = true ->
  extractTitle up content repoName = Normal (formatRepoName up repoName).
Proof.
  intros H1 H2 Hb. unfold extractTitle. rewrite H1, H2.
  now rewrite (filter_nonblank_none _ Hb).
Qed.



(** C3. When neither heading pattern matches and the first non-blank line
    is not usable as a title, or there is no such line, the title is the
    fallback name split on dashes, each word with its first unit in upper
    case and the rest as it was, joined with single spaces; read unit by
    unit, every dash has become a space.  The empty document is such a
    case: "shell-c" gives "Shell C" and "unix-shell-basics" gives
    "Unix Shell Basics". *)
Theorem C3_fallback
    (up : char -> jsstring) (content repoName : jsstring) :
  stringMatch reH1 content = None ->
  stringMatch reH2 content = None ->
  (forallb blank (split LF content) = true
   \/ exists before l after,
        split LF content = before ++ l :: after
        /\ forallb blank before = true /\ blank l = false
        /\ (length (trim l) <? 100) && negb (startsWithMarker (trim l))
           = false) ->
  extractTitle up content repoName
  = Normal (join [space]
              (map (fun word => toUpperCase up (charAt0 word) ++ slice1 word)
                 (split dash repoName)))
  /\ extractTitle up content repoName = Normal (titleCase up true repoName)
  /\ extractTitle up [] repoName = Normal (formatRepoName up repoName)
  /\ extractTitle up [] (lit "shell-c") = Normal (lit "Shell C")
  /\ formatRepoName up (lit "unix-shell-basics") = lit "Unix Shell Basics".
Proof.
  intros H1 H2 H3.
  assert (E : extractTitle up content repoName
              = Normal (formatRepoName up repoName)).
  { destruct H3 as [Hb|(before & l & after & Hs & Hb & Hl & Hu)].
    - now apply extractTitle_no_line.
    - rewrite (extractTitle_first_line up content repoName before after l)
        by assumption.
      now rewrite Hu. }
  split; [exact E|]. split; [now rewrite E, formatRepoName_titleCase|].
  split; [reflexivity|]. split; vm_compute; reflexivity.
Qed.

(** Witness of C3: a document that starts with a list item. *)
Lemma C3_fallback_witness :
  extractTitle sameUnit (lit "- first item") (lit "shell-c")
  = Normal (lit "Shell C").
Proof.
  destruct (C3_fallback sameUnit (lit "- first item") (lit "shell-c"))
    as (E & _).
  - reflexivity.
  - reflexivity.
  - right. exists [], (lit "- first item"), [].
    repeat split; reflexivity.
  - rewrite E. vm_compute. reflexivity.
Defined.

(** C4. When neither heading pattern matches, the first line that is not
    blank decides: trimmed, it is the title when it is shorter than 100
    units (it is longer than 0, not being blank) and does not start with
    one of [#*-[]`]; otherwise the title is the formatted fallback name,
    and nothing is stripped and tried again.  "A Simple Guide" is a title
    of the first kind. *)
Theorem C4_first_line
    (up : char -> jsstring) (content repoName : jsstring)
    (before after : list jsstring) (l : jsstring) :
  stringMatch reH1 content = None ->
  stringMatch reH2 content = None ->
  split LF content = before ++ l :: after ->
  forallb blank before = true -> blank l = false ->
  0 < length (trim l)
  /\ extractTitle up content repoName
     = Normal (if (length (trim l) <? 100)
                  && negb (startsWithMarker (trim l))
               then trim l else formatRepoName up repoName)
  /\ extractTitle up (lit "A Simple Guide") repoName
     = Normal (lit "A Simple Guide").
Proof.
  intros H1 H2 Hs Hb Hl. split; [|split].
  - unfold blank in Hl. destruct (trim l); [discriminate|simpl; lia].
  - now apply (extractTitle_first_line up content repoName before after l).
  - reflexivity.
Qed.

(** Witness of C4: blank lines, then a line of plain text with spaces
    around it. *)
Lemma C4_first_line_witness :
  extractTitle sameUnit
    ([LF] ++ lit "   " ++ [LF] ++ lit "  Field notes  " ++ [LF]
     ++ lit "More text.") (lit "notes")
  = Normal (lit "Field notes").
Proof.
  destruct (C4_first_line sameUnit
              ([LF] ++ lit "   " ++ [LF] ++ lit "  Field notes  " ++ [LF]
               ++ lit "More text.") (lit "notes")
              [[]; lit "   "] [lit "More text."] (lit "  Field notes  "))
    as (_ & E & _).
  - reflexivity.
  - reflexivity.
  - reflexivity.
  - reflexivity.
  - reflexivity.
  - rewrite E. vm_compute. reflexivity.
Defined.


(** Either every line is blank, or there is a first line that is not. *)
Lemma first_nonblank_cases (lines : list jsstring) :
  forallb blank lines = true
  \/ exists before l after,
       lines = before ++ l :: after
       /\ forallb blank before = true /\ blank l = false.
Proof.
  induction lines as [|a lines IH]; [now left|].
  destruct (blank a) eqn:Ha.
  - destruct IH as [IH|(before & l & after & -> & Hb & Hl)].
    + left. cbn [forallb]. now rewrite Ha.
    + right. exists (a :: before), l, after. cbn [forallb]. rewrite Ha.
      now repeat split.
  - right. now exists [], a, lines.
Qed.

Lemma trimEnd_whiteSpace (s : jsstring) :
  forallb isWhiteSpace s = true -> trimEnd s = [].
Proof.
  induction s as [|c s IH]; [reflexivity|].
  cbn [forallb trimEnd]. intros H. apply andb_prop in H as [Hc Hs].
  now rewrite (IH Hs), Hc.
Qed.





(** ** Heading patterns and lines *)

Lemma lineTerminator_whiteSpace (c : char) :
  isLineTerminator c = true -> isWhiteSpace c = true.
Proof.
  unfold isLineTerminator, isWhiteSpace. intros H.
  repeat (apply orb_prop in H as [H|H]);
    apply N.eqb_eq in H; subst c; reflexivity.
Qed.

Lemma not_whiteSpace_any (c : char) :
  isWhiteSpace c = false -> anyButLineTerminator c = true.
Proof.
  intros H. unfold anyButLineTerminator.
  destruct (isLineTerminator c) eqn:E; [|reflexivity].
  apply lineTerminator_whiteSpace in E. congruence.
Qed.

Lemma atLineEnd_stops (X : jsstring) :
  atLineEnd true X = true -> stopsAt anyButLineTerminator X = true.
Proof.
  destruct X as [|x X]; [reflexivity|]. simpl.
  unfold anyButLineTerminator. intros ->. reflexivity.
Qed.

Lemma lineTail_end (after : list jsstring) :
  atLineEnd true (lineTail after) = true.
Proof. destruct after; reflexivity. Qed.

Lemma join_lines (before after : list jsstring) (l : jsstring) :
  join [LF] (before ++ l :: after)
  = concat (map (fun b => b ++ [LF]) before) ++ l ++ lineTail after.
Proof.
  induction before as [|b before IH].
  - destruct after; simpl; [now rewrite app_nil_r|reflexivity].
  - cbn [app map concat]. rewrite join_cons by now destruct before.
    rewrite IH, <- !app_assoc. reflexivity.
Qed.

(** The text of a heading, once the pattern has reached it: the white
    space after the marker is taken whole, then the rest of the line. *)
Lemma heading_text_match (prev : option char) (ws : jsstring) (c : char)
    (t X : jsstring) :
  ws <> [] -> forallb isWhiteSpace ws = true ->
  isWhiteSpace c = false -> forallb anyButLineTerminator t = true ->
  atLineEnd true X = true ->
  matchAt true [ClassPlus isWhiteSpace; GroupPlus anyButLineTerminator;
                AssertEnd] prev (ws ++ c :: t ++ X)
  = Some (length ws + (length (c :: t) + 0), [c :: t]).
Proof.
  intros NE Hws Hc Ht HX. cbn [matchAt].
  rewrite (greedy_max isWhiteSpace _ ws (c :: t ++ X)
             (length (c :: t) + 0, [c :: t])); [reflexivity|exact NE|exact Hws| |].
  - simpl. now rewrite Hc.
  - cbn [matchAt]. change (c :: t ++ X) with ((c :: t) ++ X).
    rewrite (greedy_max anyButLineTerminator _ (c :: t) X (0, []));
      [reflexivity|discriminate| |now apply atLineEnd_stops|].
    + simpl. now rewrite (not_whiteSpace_any c Hc).
    + cbn [matchAt]. now rewrite HX.
Qed.

Section HeadingSearch.

(** A multi-line pattern that starts with [^] and [#], and a test on lines
    that tells where it cannot match. *)
Variable re : regexp.
Variable candidate : jsstring -> bool.

Hypothesis re_multiline : multiline re = true.
Hypothesis re_anchored :
  forall prev s, atLineStart true prev = false ->
    matchAt true (pattern re) prev s = None.
Hypothesis re_hash :
  forall prev s, startsWith hash s = false ->
    matchAt true (pattern re) prev s = None.
Hypothesis re_candidate :
  forall l prev X, candidate l = false ->
    matchAt true (pattern re) prev (l ++ LF :: X) = None.
Hypothesis re_candidate_last :
  forall l prev, candidate l = false ->
    matchAt true (pattern re) prev l = None.

(** Inside a line the pattern can match only after a line terminator and
    at a [#]. *)
Lemma no_match_inside (c : char) (s : jsstring) :
  isLineTerminator c && startsWith hash s = false ->
  matchAt true (pattern re) (Some c) s = None.
Proof.
  intros H. destruct (isLineTerminator c) eqn:E.
  - apply re_hash. exact H.
  - apply re_anchored. simpl. exact E.
Qed.

Lemma search_rest_of_line (l X : jsstring) :
  forall c i,
    quietLine (c :: l) = true ->
    exists i', searchFrom re (Some c) (l ++ LF :: X) i
               = searchFrom re (Some LF) X i'.
Proof.
  induction l as [|a l IH]; intros c i H; cbn [quietLine] in H;
    apply andb_prop in H as [H1 H2]; apply negb_true_iff in H1.
  - cbn [app searchFrom]. rewrite re_multiline, no_match_inside;
      [now eexists|].
    cbn [startsWith]. apply andb_false_r.
  - cbn [app searchFrom]. rewrite re_multiline, no_match_inside.
    + now apply IH.
    + exact H1.
Qed.

Lemma search_line (l X : jsstring) (prev : option char) (i : nat) :
  quietLine l = true -> candidate l = false ->
  exists i', searchFrom re prev (l ++ LF :: X) i
             = searchFrom re (Some LF) X i'.
Proof.
  intros Hl Hc. pose proof (re_candidate l prev X Hc) as M.
  destruct l as [|a l].
  - cbn [app searchFrom] in *. rewrite re_multiline, M. now eexists.
  - cbn [app searchFrom] in *. rewrite re_multiline, M.
    now apply search_rest_of_line.
Qed.

(** The search passes over lines at which the pattern cannot start. *)
Lemma search_lines (before : list jsstring) (X : jsstring) :
  forall prev i,
    atLineStart true prev = true ->
    forallb quietLine before = true ->
    forallb (fun l => negb (candidate l)) before = true ->
    exists prev' i',
      atLineStart true prev' = true
      /\ searchFrom re prev (concat (map (fun b => b ++ [LF]) before) ++ X) i
         = searchFrom re prev' X i'.
Proof.
  induction before as [|b before IH]; intros prev i Hprev Hp Hc.
  - now exists prev, i.
  - simpl in Hp, Hc. apply andb_prop in Hp as [Hp1 Hp2].
    apply andb_prop in Hc as [Hc1 Hc2]. apply negb_true_iff in Hc1.
    cbn [map concat]. rewrite <- !app_assoc. cbn [app].
    destruct (search_line b (concat (map (fun b => b ++ [LF]) before) ++ X)
                prev i Hp1 Hc1) as [i1 ->].
    now apply IH.
Qed.

Lemma search_rest_of_last_line (l : jsstring) :
  forall c i,
    quietLine (c :: l) = true ->
    searchFrom re (Some c) l i = None.
Proof.
  induction l as [|a l IH]; intros c i H; cbn [quietLine] in H;
    apply andb_prop in H as [H1 H2]; apply negb_true_iff in H1.
  - cbn [searchFrom]. now rewrite re_multiline, no_match_inside.
  - cbn [searchFrom]. rewrite re_multiline, no_match_inside.
    + now apply IH.
    + exact H1.
Qed.

Lemma search_last_line (l : jsstring) (prev : option char) (i : nat) :
  quietLine l = true -> candidate l = false ->
  searchFrom re prev l i = None.
Proof.
  intros Hl Hc. pose proof (re_candidate_last l prev Hc) as M.
  destruct l as [|a l].
  - cbn [searchFrom]. now rewrite re_multiline, M.
  - cbn [searchFrom]. rewrite re_multiline, M.
    now apply search_rest_of_last_line.
Qed.

(** The pattern matches nowhere in a document none of whose lines is a
    candidate. *)
Lemma search_none (lines : list jsstring) :
  forall prev i,
    lines <> [] ->
    forallb quietLine lines = true ->
    forallb (fun l => negb (candidate l)) lines = true ->
    searchFrom re prev (join [LF] lines) i = None.
Proof.
  induction lines as [|l lines IH]; intros prev i NE Hp Hc; [congruence|].
  simpl in Hp, Hc. apply andb_prop in Hp as [Hp1 Hp2].
  apply andb_prop in Hc as [Hc1 Hc2]. apply negb_true_iff in Hc1.
  destruct lines as [|l2 lines].
  - now apply search_last_line.
  - rewrite join_cons by discriminate. cbn [app].
    destruct (search_line l (join [LF] (l2 :: lines)) prev i Hp1 Hc1)
      as [i1 ->].
    apply IH; [discriminate|exact Hp2|exact Hc2].
Qed.

End HeadingSearch.

Lemma reH1_anchored (prev : option char) (s : jsstring) :
  atLineStart true prev = false -> matchAt true (pattern reH1) prev s = None.
Proof. intros H. simpl. now rewrite H. Qed.

Lemma reH2_anchored (prev : option char) (s : jsstring) :
  atLineStart true prev = false -> matchAt true (pattern reH2) prev s = None.
Proof. intros H. simpl. now rewrite H. Qed.

Lemma reH1_hash (prev : option char) (s : jsstring) :
  startsWith hash s = false -> matchAt true (pattern reH1) prev s = None.
Proof.
  intros H. cbn [pattern reH1 matchAt].
  destruct (atLineStart true prev); [|reflexivity].
  destruct s as [|c s]; [reflexivity|]. cbn [startsWith] in H.
  unfold only. now rewrite H.
Qed.

Lemma reH2_hash (prev : option char) (s : jsstring) :
  startsWith hash s = false -> matchAt true (pattern reH2) prev s = None.
Proof.
  intros H. cbn [pattern reH2 matchAt].
  destruct (atLineStart true prev); [|reflexivity].
  destruct s as [|c s]; [reflexivity|]. cbn [startsWith] in H.
  unfold only at 1. now rewrite H.
Qed.

Lemma reH1_candidate_last (l : jsstring) (prev : option char) :
  h1Candidate l = false -> matchAt true (pattern reH1) prev l = None.
Proof.
  intros H. cbn [pattern reH1 matchAt].
  destruct (atLineStart true prev); [|reflexivity].
  destruct l as [|c [|x l]]; [reflexivity| |]; cbn [h1Candidate] in H;
    unfold only; destruct (c =? hash)%N; try reflexivity; try discriminate.
  cbn [andb] in H. cbn [greedy]. now rewrite H.
Qed.

Lemma reH1_candidate (l : jsstring) (prev : option char) (X : jsstring) :
  h1Candidate l = false ->
  matchAt true (pattern reH1) prev (l ++ LF :: X) = None.
Proof.
  intros H. destruct l as [|c [|x l]].
  - cbn [app pattern reH1 matchAt]. now destruct (atLineStart true prev).
  - cbn [app pattern reH1 matchAt]. cbn [h1Candidate] in H.
    unfold only. rewrite H. now destruct (atLineStart true prev).
  - apply reH1_candidate_last. exact H.
Qed.

Lemma reH2_candidate_last (l : jsstring) (prev : option char) :
  h2Candidate l = false -> matchAt true (pattern reH2) prev l = None.
Proof.
  intros H. cbn [pattern reH2 matchAt].
  destruct (atLineStart true prev); [|reflexivity].
  destruct l as [|c [|c' [|x l]]]; try reflexivity; unfold only;
    cbn [h2Candidate] in H;
    destruct (c =? hash)%N; try reflexivity;
    destruct (c' =? hash)%N; try reflexivity; try discriminate.
  cbn [andb] in H. cbn [greedy]. now rewrite H.
Qed.

Lemma reH2_candidate (l : jsstring) (prev : option char) (X : jsstring) :
  h2Candidate l = false ->
  matchAt true (pattern reH2) prev (l ++ LF :: X) = None.
Proof.
  intros H. destruct l as [|c [|c' [|x l]]].
  - cbn [app pattern reH2 matchAt]. now destruct (atLineStart true prev).
  - cbn [app pattern reH2 matchAt]. unfold only.
    destruct (atLineStart true prev); [|reflexivity].
    now destruct (c =? hash)%N.
  - cbn [app pattern reH2 matchAt]. cbn [h2Candidate] in H.
    unfold only. destruct (atLineStart true prev); [|reflexivity].
    destruct (c =? hash)%N; [|reflexivity].
    cbn [andb] in H. now rewrite H.
  - apply reH2_candidate_last. exact H.
Qed.

(** The level-1 pattern at a line that is [#], white space and text. *)
Lemma reH1_at_heading (prev : option char) (ws : jsstring) (c : char)
    (t X : jsstring) (i : nat) :
  atLineStart true prev = true ->
  ws <> [] -> forallb isWhiteSpace ws = true ->
  isWhiteSpace c = false -> forallb anyButLineTerminator t = true ->
  atLineEnd true X = true ->
  exists n, searchFrom reH1 prev (hash :: ws ++ c :: t ++ X) i
            = Some (ExecResult i n [c :: t]).
Proof.
  intros Hprev NE Hws Hc Ht HX.
  pose proof (heading_text_match (Some hash) ws c t X NE Hws Hc Ht HX) as M.
  cbn [searchFrom reH1 multiline pattern]. cbn [matchAt] in *.
  rewrite Hprev. unfold only at 1. rewrite N.eqb_refl.
  destruct (greedy isWhiteSpace _ _) as [[run [n caps]]|]; [|discriminate].
  injection M as M1 M2. subst caps. now eexists.
Qed.

Lemma reH2_at_heading (prev : option char) (ws : jsstring) (c : char)
    (t X : jsstring) (i : nat) :
  atLineStart true prev = true ->
  ws <> [] -> forallb isWhiteSpace ws = true ->
  isWhiteSpace c = false -> forallb anyButLineTerminator t = true ->
  atLineEnd true X = true ->
  exists n, searchFrom reH2 prev (hash :: hash :: ws ++ c :: t ++ X) i
            = Some (ExecResult i n [c :: t]).
Proof.
  intros Hprev NE Hws Hc Ht HX.
  pose proof (heading_text_match (Some hash) ws c t X NE Hws Hc Ht HX) as M.
  cbn [searchFrom reH2 multiline pattern]. cbn [matchAt] in *.
  rewrite Hprev. unfold only at 1 2. rewrite N.eqb_refl.
  destruct (greedy isWhiteSpace _ _) as [[run [n caps]]|]; [|discriminate].
  injection M as M1 M2. subst caps. now eexists.
Qed.

Lemma heading_line_shape (content : jsstring)
    (before after : list jsstring) (l : jsstring) :
  split LF content = before ++ l :: after ->
  content = concat (map (fun b => b ++ [LF]) before) ++ l ++ lineTail after.
Proof.
  intros Hs. rewrite <- (join_split LF content) at 1.
  rewrite Hs. apply join_lines.
Qed.

Lemma trimEnd_app_whiteSpace (s w : jsstring) :
  forallb isWhiteSpace w = true -> trimEnd (s ++ w) = trimEnd s.
Proof.
  intros H. induction s as [|a s IH].
  - now apply trimEnd_whiteSpace.
  - cbn [app trimEnd]. now rewrite IH.
Qed.

(** White space after a text does not show in its trim. *)
Lemma trim_text_whiteSpace (c : char) (t w : jsstring) :
  isWhiteSpace c = false -> forallb isWhiteSpace w = true ->
  trim (c :: t ++ w) = trim (c :: t).
Proof.
  intros Hc Hw. unfold trim. cbn [trimStart]. rewrite Hc.
  change (c :: t ++ w) with ((c :: t) ++ w).
  now apply trimEnd_app_whiteSpace.
Qed.

Lemma line_end_after (t2 : jsstring) (after : list jsstring) :
  stopsAt anyButLineTerminator t2 = true ->
  atLineEnd true (t2 ++ lineTail after) = true.
Proof.
  destruct t2 as [|x t2]; [intros _; apply lineTail_end|].
  cbn [stopsAt app atLineEnd]. unfold anyButLineTerminator.
  intros H. apply negb_true_iff in H. apply negb_false_iff in H.
  now rewrite H.
Qed.

(** X12.  A line made of [#], white space and text that starts with a unit
    other than white space gives the title, as its trimmed text, when no
    line before it is a [#] alone or a [#] with white space after it; and
    when no line of the document is of that kind, the first line made of
    [##], white space and such text gives the title, provided no line
    before it is [##] alone or [##] with white space after it.  The text
    may be followed by white space that starts with a line terminator, as
    the carriage return of a CRLF line ending is, and the lines concerned
    have no line terminator directly before a [#]. *)
Theorem title_heading_line :
  (forall (up : char -> jsstring) (content repoName : jsstring)
          (before after : list jsstring) (ws : jsstring) (c : char)
          (t1 t2 : jsstring),
     split LF content
     = before ++ (hash :: ws ++ c :: t1 ++ t2) :: after ->
     forallb quietLine before = true ->
     forallb (fun l => negb (h1Candidate l)) before = true ->
     ws <> [] -> forallb isWhiteSpace ws = true ->
     isWhiteSpace c = false -> forallb anyButLineTerminator t1 = true ->
     forallb isWhiteSpace t2 = true ->
     stopsAt anyButLineTerminator t2 = true ->
     extractTitle up content repoName = Normal (trim (c :: t1 ++ t2)))
  /\ (forall (up : char -> jsstring) (content repoName : jsstring)
             (before after : list jsstring) (ws : jsstring) (c : char)
             (t1 t2 : jsstring),
        split LF content
        = before ++ (hash :: hash :: ws ++ c :: t1 ++ t2) :: after ->
        forallb quietLine (split LF content) = true ->
        forallb (fun l => negb (h1Candidate l)) (split LF content) = true ->
        forallb (fun l => negb (h2Candidate l)) before = true ->
        ws <> [] -> forallb isWhiteSpace ws = true ->
        isWhiteSpace c = false -> forallb anyButLineTerminator t1 = true ->
        forallb isWhiteSpace t2 = true ->
        stopsAt anyButLineTerminator t2 = true ->
        extractTitle up content repoName = Normal (trim (c :: t1 ++ t2))).
Proof.
  split.
  - intros up content repoName before after ws c t1 t2
      Hs Hp Hc NE Hws Hc' Ht1 Ht2 Hstop.
    rewrite (heading_line_shape content before after _ Hs).
    unfold extractTitle, stringMatch.
    destruct (search_lines reH1 h1Candidate eq_refl reH1_anchored reH1_hash
                reH1_candidate before
                ((hash :: ws ++ c :: t1 ++ t2) ++ lineTail after) None 0
                eq_refl Hp Hc) as (prev' & i' & Hprev & ->).
    cbn [app]. rewrite <- !app_assoc. cbn [app]. rewrite <- !app_assoc.
    destruct (reH1_at_heading prev' ws c t1 (t2 ++ lineTail after) i' Hprev
                NE Hws Hc' Ht1 (line_end_after t2 after Hstop)) as [n ->].
    cbn [group item groups Nat.sub nth_error bind].
    now rewrite trim_text_whiteSpace.
  - intros up content repoName before after ws c t1 t2
      Hs Hp Hc1 Hc2 NE Hws Hc' Ht1 Ht2 Hstop.
    assert (Hb : forallb quietLine before = true).
    { rewrite Hs, forallb_app in Hp. now apply andb_prop in Hp as [Hp _]. }
    unfold extractTitle.
    assert (N1 : stringMatch reH1 content = None).
    { rewrite <- (join_split LF content) at 1.
      apply (search_none reH1 h1Candidate eq_refl reH1_anchored reH1_hash
               reH1_candidate reH1_candidate_last);
        [apply split_nonempty|exact Hp|exact Hc1]. }
    rewrite N1.
    rewrite (heading_line_shape content before after _ Hs).
    unfold stringMatch.
    destruct (search_lines reH2 h2Candidate eq_refl reH2_anchored reH2_hash
                reH2_candidate before
                ((hash :: hash :: ws ++ c :: t1 ++ t2) ++ lineTail after)
                None 0 eq_refl Hb Hc2) as (prev' & i' & Hprev & ->).
    cbn [app]. rewrite <- !app_assoc. cbn [app]. rewrite <- !app_assoc.
    destruct (reH2_at_heading prev' ws c t1 (t2 ++ lineTail after) i' Hprev
                NE Hws Hc' Ht1 (line_end_after t2 after Hstop)) as [n ->].
    cbn [group item groups Nat.sub nth_error bind].
    now rewrite trim_text_whiteSpace.
Qed.

(** Witness of X12: documents with CRLF line endings, with a level-1
    heading after an introductory line, and with a level-2 heading and no
    level-1 heading. *)
Lemma title_heading_line_witness :
  extractTitle sameUnit
    (lit "intro" ++ [CR; LF] ++ lit "#  Field notes " ++ [CR; LF]
     ++ lit "# Later")
    (lit "x") = Normal (lit "Field notes")
  /\ extractTitle sameUnit
       (lit "intro" ++ [CR; LF] ++ lit "## Setup" ++ [CR; LF] ++ lit "text")
       (lit "x") = Normal (lit "Setup").
Proof.
  destruct title_heading_line as (A & B). split.
  - rewrite (A sameUnit
               (lit "intro" ++ [CR; LF] ++ lit "#  Field notes " ++ [CR; LF]
                ++ lit "# Later")
               (lit "x") [lit "intro" ++ [CR]] [lit "# Later"] (lit "  ")
               70%N (lit "ield notes ") [CR]).
    + vm_compute. reflexivity.
    + reflexivity.
    + reflexivity.
    + reflexivity.
    + discriminate.
    + reflexivity.
    + reflexivity.
    + reflexivity.
    + reflexivity.
    + reflexivity.
  - rewrite (B sameUnit
               (lit "intro" ++ [CR; LF] ++ lit "## Setup" ++ [CR; LF]
                ++ lit "text")
               (lit "x") [lit "intro" ++ [CR]] [lit "text"] (lit " ") 83%N
               (lit "etup") [CR]).
    + vm_compute. reflexivity.
    + reflexivity.
    + reflexivity.
    + reflexivity.
    + reflexivity.
    + discriminate.
    + reflexivity.
    + reflexivity.
    + reflexivity.
    + reflexivity.
    + reflexivity.
Defined.

(** C2.  The claim holds of the document that starts with "# My Title" and
    a line feed, and fails where a line is a lone [#]: in "#", "foo",
    "# Bar" the only line that is a [#], white space and text is "# Bar",
    so the title read line by line is "Bar"; the pattern matches from the
    lone [#] of the first line, across the line break, and the title
    returned is "foo", the text of a line that is no heading.  In "#",
    "### Three" no line is a heading of level 1 or 2 and the title returned
    is "### Three". *)
Theorem C2_lone_marker :
  (forall (up : char -> jsstring) (rest repoName : jsstring),
     extractTitle up (lit "# My Title" ++ LF :: rest) repoName
     = Normal (lit "My Title"))
  /\ titleByLines (lit "#" ++ [LF] ++ lit "foo" ++ [LF] ++ lit "# Bar")
     = Some (lit "Bar")
  /\ extractTitle sameUnit
       (lit "#" ++ [LF] ++ lit "foo" ++ [LF] ++ lit "# Bar") (lit "x")
     = Normal (lit "foo")
  /\ titleByLines (lit "#" ++ [LF] ++ lit "### Three") = None
  /\ extractTitle sameUnit (lit "#" ++ [LF] ++ lit "### Three") (lit "x")
     = Normal (lit "### Three").
Proof.
  split; [intros up rest repoName; reflexivity|].
  repeat split; vm_compute; reflexivity.
Qed.

Lemma prevAfter_last_unit (ws : jsstring) (prev : option char) (d : char) :
  ws <> [] -> prevAfter prev ws = Some (last ws d).
Proof.
  revert prev. induction ws as [|w ws IH]; intros prev NE; [congruence|].
  destruct ws as [|w' ws']; [reflexivity|].
  rewrite prevAfter_cons. rewrite IH by discriminate. reflexivity.
Qed.

Lemma hash_not_whiteSpace : isWhiteSpace hash = false.
Proof. reflexivity. Qed.

Lemma app_same_length {A : Type} (u u' v v' : list A) :
  length u = length u' -> u ++ v = u' ++ v' -> u = u' /\ v = v'.
Proof.
  revert u'. induction u as [|a u IH]; intros [|a' u'] L E;
    try discriminate; [now split|].
  simpl in L, E. injection L as L. injection E as -> E.
  destruct (IH u' L E) as [-> ->]. now split.
Qed.

(** A pattern that fails at a position is not found there by the search. *)
Lemma stringMatch_not_at (re : regexp) (u v : jsstring) (e : execResult) :
  matchAt (multiline re) (pattern re) (prevAfter None u) v = None ->
  stringMatch re (u ++ v) = Some e -> index e <> length u.
Proof.
  intros M H L. apply searchFrom_inv in H as (u' & v' & E & I & M').
  simpl in I. rewrite L in I.
  destruct (app_same_length u u' v v' I E) as [<- <-]. congruence.
Qed.

Lemma not_marker_not_hash (s : jsstring) :
  startsWithMarker s = false -> startsWith hash s = false.
Proof.
  destruct s as [|c s]; [reflexivity|]. cbn [startsWithMarker startsWith].
  unfold isMarker. destruct (c =? hash)%N; [discriminate|reflexivity].
Qed.

(** Where a title comes from: the capture of a heading match, a first
    non-blank line that is no heading for the description, or the fallback
    name. *)
Lemma extractTitle_sources
    (up : char -> jsstring) (content repoName : jsstring) :
  exists t,
    extractTitle up content repoName = Normal t
    /\ ((exists e g,
           (stringMatch reH1 content = Some e
            \/ (stringMatch reH1 content = None
                /\ stringMatch reH2 content = Some e))
           /\ groups e = [g] /\ t = trim g)
        \/ (stringMatch reH1 content = None
            /\ stringMatch reH2 content = None
            /\ ((exists before l after,
                    split LF content = before ++ l :: after
                    /\ forallb blank before = true /\ blank l = false
                    /\ heading l = false /\ t = trim l)
                \/ t = formatRepoName up repoName))).
Proof.
  destruct (stringMatch reH1 content) as [e|] eqn:E1.
  - destruct (stringMatch_group1 reH1 content e eq_refl E1) as (g & G & Hg).
    exists (trim g). split; [unfold extractTitle; now rewrite E1, Hg|].
    left. exists e, g. auto.
  - destruct (stringMatch reH2 content) as [e|] eqn:E2.
    + destruct (stringMatch_group1 reH2 content e eq_refl E2) as (g & G & Hg).
      exists (trim g).
      split; [unfold extractTitle; now rewrite E1, E2, Hg|].
      left. exists e, g. auto.
    + destruct (first_nonblank_cases (split LF content))
        as [Hb|(before & l & after & Hs & Hb & Hl)].
      * exists (formatRepoName up repoName).
        split; [now apply extractTitle_no_line|]. right. auto.
      * rewrite (extractTitle_first_line up content repoName before after l
                   E1 E2 Hs Hb Hl).
        eexists. split; [reflexivity|]. right. split; [reflexivity|].
        split; [reflexivity|].
        destruct (length (trim l) <? 100); cbn [andb]; [|now right].
        destruct (startsWithMarker (trim l)) eqn:M; cbn [negb]; [now right|].
        left. exists before, l, after. repeat split; auto.
        unfold heading. now apply not_marker_not_hash.
Qed.

(** C10 (amended).  A line that has white space before its first [#] is a
    heading for [extractDescription]: the first loop passes over it and the
    second loop ends at it with what it has.  When the unit just before
    that [#] is not a line terminator, neither title pattern matches at
    the [#], wherever the line stands in the document, and the title is the
    capture of a heading match that starts elsewhere, or a first non-blank
    line that is no heading for the description, or the fallback name.  In
    "Intro", "  # Sub", "more" the indented line ends the description while
    the title is "Intro"; in "  # Sub", "body" it is passed over and the
    title is the fallback. *)
Theorem C10_indented_heading :
  (forall ws rest : jsstring,
     ws <> [] -> forallb isWhiteSpace ws = true ->
     skippable (ws ++ hash :: rest) = true
     /\ heading (ws ++ hash :: rest) = true
     /\ (forall (n : nat) (lines : list jsstring) (i st : nat),
           nth_error lines i = Some (ws ++ hash :: rest) ->
           skipLoop (S n) lines i st = skipLoop n lines (S i) (i + 1))
     /\ (forall (n : nat) (lines : list jsstring) (i : nat) (d : jsstring),
           nth_error lines i = Some (ws ++ hash :: rest) ->
           collectLoop (S n) lines i d = Normal d)
     /\ (isLineTerminator (last ws hash) = false ->
         forall (up : char -> jsstring) (pre X repoName : jsstring),
           let content := (pre ++ ws) ++ hash :: rest ++ X in
           (forall e : execResult,
              stringMatch reH1 content = Some e
              \/ stringMatch reH2 content = Some e ->
              index e <> length (pre ++ ws))
           /\ exists t,
               extractTitle up content repoName = Normal t
               /\ ((exists e g,
                      (stringMatch reH1 content = Some e
                       \/ (stringMatch reH1 content = None
                           /\ stringMatch reH2 content = Some e))
                      /\ index e <> length (pre ++ ws)
                      /\ groups e = [g] /\ t = trim g)
                   \/ (stringMatch reH1 content = None
                       /\ stringMatch reH2 content = None
                       /\ ((exists before l after,
                               split LF content = before ++ l :: after
                               /\ forallb blank before = true
                               /\ blank l = false
                               /\ heading l = false /\ t = trim l)
                           \/ t = formatRepoName up repoName)))))
  /\ parseReadme sameUnit
       (lit "Intro" ++ [LF] ++ lit "  # Sub" ++ [LF] ++ lit "more")
       (lit "my-repo")
     = Normal (mkReadmeData (lit "Intro") (Some (lit "Intro")))
  /\ parseReadme sameUnit (lit "  # Sub" ++ [LF] ++ lit "body")
       (lit "my-repo")
     = Normal (mkReadmeData (lit "My Repo") (Some (lit "body"))).
Proof.
  split; [|split; vm_compute; reflexivity].
  intros ws rest NE Hws.
  destruct (trim_indented ws hash rest Hws hash_not_whiteSpace) as [t E].
  assert (H : heading (ws ++ hash :: rest) = true).
  { unfold heading. rewrite E. reflexivity. }
  split; [unfold skippable; fold (heading (ws ++ hash :: rest)); now rewrite H|].
  split; [exact H|]. unfold heading in H. split; [|split].
  - intros n lines i st Hl. cbn [skipLoop]. unfold item. rewrite Hl.
    cbn [bind]. now rewrite H.
  - intros n lines i d Hl. cbn [collectLoop]. unfold item. rewrite Hl.
    cbn [bind]. now rewrite H.
  - intros Hlast up pre X repoName content.
    assert (A : forall e : execResult,
              stringMatch reH1 content = Some e
              \/ stringMatch reH2 content = Some e ->
              index e <> length (pre ++ ws)).
    { intros e [M|M]; revert M; apply stringMatch_not_at;
        rewrite prevAfter_app, (prevAfter_last_unit ws _ hash NE);
        [apply reH1_anchored|apply reH2_anchored]; simpl; exact Hlast. }
    split; [exact A|].
    destruct (extractTitle_sources up content repoName)
      as (t' & Et & [(e & g & M & G & T)|R]).
    + exists t'. split; [exact Et|]. left. exists e, g.
      repeat split; auto. apply A. destruct M as [M|[_ M]]; auto.
    + exists t'. split; [exact Et|]. now right.
Qed.

(** Witness of C10: a heading indented by two spaces, after a paragraph
    and after a level-1 heading; the level-1 match of the second document
    is the one at index 0, not one at the indented [#] at index 8, and a
    document that is the indented heading alone has the fallback title. *)
Lemma C10_indented_heading_witness :
  collectLoop 2 [lit "Intro"; lit "  # Sub"; lit "more"] 1 (lit "Intro")
  = Normal (lit "Intro")
  /\ stringMatch reH1 (lit "# Top" ++ [LF] ++ lit "  # Sub")
     = Some (ExecResult 0 5 [lit "Top"])
  /\ index (ExecResult 0 5 [lit "Top"]) <> 8.
Proof.
  destruct C10_indented_heading as [A _].
  destruct (A (lit "  ") (lit " Sub")) as (_ & _ & _ & B & C).
  - discriminate.
  - reflexivity.
  - split; [|split].
    + apply (B 1 [lit "Intro"; lit "  # Sub"; lit "more"] 1 (lit "Intro")).
      reflexivity.
    + reflexivity.
    + destruct (C eq_refl sameUnit (lit "# Top" ++ [LF]) [] (lit "x"))
        as [C1 _].
      apply (C1 (ExecResult 0 5 [lit "Top"])). left. reflexivity.
Defined.

(** Counterexample to C10: a carriage return is white space, so the line
    is an indented heading for the description; it is also a line
    terminator, so the level-1 pattern matches at the [#] after it and the
    heading supplies the title.  And after a line that is a lone [#], a
    heading indented by spaces supplies the title through the match that
    starts at that [#]. *)
Lemma C10_counterexample :
  forallb isWhiteSpace [CR] = true
  /\ heading (CR :: lit "# Foo") = true
  /\ stringMatch reH1 (CR :: lit "# Foo")
     = Some (ExecResult 1 5 [lit "Foo"])
  /\ parseReadme sameUnit (CR :: lit "# Foo") (lit "my-repo")
     = Normal (mkReadmeData (lit "Foo") None)
  /\ heading (lit "  # Foo") = true
  /\ parseReadme sameUnit (lit "#" ++ [LF] ++ lit "  # Foo") (lit "my-repo")
     = Normal (mkReadmeData (lit "# Foo") None).
Proof. repeat split; vm_compute; reflexivity. Qed.

(** ** Global replacement *)

Section Replace.

Variable re : regexp.

Lemma replaceFrom_skip (u s : jsstring) :
  forall prev,
    replaceFrom re prev (u ++ s) (length u)
    = replaceFrom re (prevAfter prev u) s 0.
Proof.
  induction u as [|c u IH]; intros prev; [reflexivity|].
  cbn [app length replaceFrom]. now rewrite IH.
Qed.

(** A match gives way to its first capture, and the search goes on after
    it. *)
Lemma replaceFrom_match (u s : jsstring) (prev : option char)
    (caps : list jsstring) :
  u <> [] ->
  matchAt (multiline re) (pattern re) prev (u ++ s) = Some (length u, caps) ->
  replaceFrom re prev (u ++ s) 0
  = dollar1 caps ++ replaceFrom re (prevAfter prev u) s 0.
Proof.
  intros NE M. destruct u as [|c u]; [congruence|].
  cbn [app replaceFrom] in *. rewrite M. cbn [length].
  now rewrite replaceFrom_skip.
Qed.

(** A unit at which the pattern does not match is kept. *)
Lemma replaceFrom_keep (c : char) (s : jsstring) (prev : option char) :
  matchAt (multiline re) (pattern re) prev (c :: s) = None ->
  replaceFrom re prev (c :: s) 0 = c :: replaceFrom re (Some c) s 0.
Proof. intros M. cbn [replaceFrom]. now rewrite M. Qed.

(** So is a run of units none of which is the first unit of the
    pattern. *)
Lemma replaceFrom_pass (a : char) (r : list atom) (u s : jsstring) :
  pattern re = Class (only a) :: r ->
  forallb (except a) u = true ->
  forall prev,
    replaceFrom re prev (u ++ s) 0
    = u ++ replaceFrom re (prevAfter prev u) s 0.
Proof.
  intros P. induction u as [|c u IH]; intros Hu prev; [reflexivity|].
  simpl in Hu. apply andb_prop in Hu as [Hc Hu].
  cbn [app]. rewrite replaceFrom_keep.
  - now rewrite IH.
  - rewrite P. cbn [matchAt]. unfold except in Hc. unfold only.
    apply negb_true_iff in Hc. now rewrite Hc.
Qed.

End Replace.

(** ** Decorations *)

Lemma plainText_except (t : jsstring) :
  plainText t = true ->
  forallb (except lbracket) t = true
  /\ forallb (except star) t = true
  /\ forallb (except backtick) t = true.
Proof.
  unfold plainText. induction t as [|c t IH]; [now repeat split|].
  cbn [forallb]. intros H. apply andb_prop in H as [Hc Ht].
  destruct (IH Ht) as (I1 & I2 & I3). rewrite I1, I2, I3.
  unfold plainUnit in Hc. apply andb_prop in Hc as [Hc H3].
  apply andb_prop in Hc as [H1 H2]. unfold except.
  now rewrite H1, H2, H3.
Qed.

Lemma truthy_nonempty (t : jsstring) : truthy t = true -> t <> [].
Proof. destruct t; discriminate. Qed.

(** Inline code: a backtick, text without backticks, a backtick. *)
Lemma reCode_match (t X : jsstring) (prev : option char) :
  t <> [] -> forallb (except backtick) t = true ->
  matchAt false (pattern reCode) prev ((backtick :: t ++ [backtick]) ++ X)
  = Some (length (backtick :: t ++ [backtick]), [t]).
Proof.
  intros NE Ht. cbn [app]. rewrite <- app_assoc. cbn [app].
  cbn [pattern reCode matchAt]. unfold only at 1. rewrite N.eqb_refl.
  rewrite (greedy_max (except backtick) _ t (backtick :: X) (1, []));
    [|assumption|assumption|reflexivity|reflexivity].
  cbn [length]. rewrite length_app. cbn [length].
  do 2 f_equal; lia.
Qed.

(** Italic text: a star, text without stars, a star. *)
Lemma reItalic_match (t X : jsstring) (prev : option char) :
  t <> [] -> forallb (except star) t = true ->
  matchAt false (pattern reItalic) prev ((star :: t ++ [star]) ++ X)
  = Some (length (star :: t ++ [star]), [t]).
Proof.
  intros NE Ht. cbn [app]. rewrite <- app_assoc. cbn [app].
  cbn [pattern reItalic matchAt]. unfold only at 1. rewrite N.eqb_refl.
  rewrite (greedy_max (except star) _ t (star :: X) (1, []));
    [|assumption|assumption|reflexivity|reflexivity].
  cbn [length]. rewrite length_app. cbn [length].
  do 2 f_equal; lia.
Qed.

(** Bold text: two stars, text without stars, two stars. *)
Lemma reBold_match (t X : jsstring) (prev : option char) :
  t <> [] -> forallb (except star) t = true ->
  matchAt false (pattern reBold) prev
    ((star :: star :: t ++ [star; star]) ++ X)
  = Some (length (star :: star :: t ++ [star; star]), [t]).
Proof.
  intros NE Ht. cbn [app]. rewrite <- app_assoc. cbn [app].
  cbn [pattern reBold matchAt]. unfold only at 1 2. rewrite N.eqb_refl.
  rewrite (greedy_max (except star) _ t (star :: star :: X) (2, []));
    [|assumption|assumption|reflexivity|reflexivity].
  cbn [length]. rewrite length_app. cbn [length].
  do 2 f_equal; lia.
Qed.

(** A link: the text in brackets, the address in parentheses. *)
Lemma reLink_match (t u X : jsstring) (prev : option char) :
  t <> [] -> forallb (except rbracket) t = true ->
  u <> [] -> forallb (except rparen) u = true ->
  matchAt false (pattern reLink) prev
    ((lbracket :: t ++ rbracket :: lparen :: u ++ [rparen]) ++ X)
  = Some (length (lbracket :: t ++ rbracket :: lparen :: u ++ [rparen]),
          [t]).
Proof.
  intros NEt Ht NEu Hu. cbn [app]. rewrite <- app_assoc. cbn [app].
  rewrite <- app_assoc. cbn [app].
  cbn [pattern reLink matchAt]. unfold only at 1. rewrite N.eqb_refl.
  rewrite (greedy_max (except rbracket) _ t
             (rbracket :: lparen :: u ++ rparen :: X)
             (2 + (length u + 1), []));
    [|assumption|assumption|reflexivity|].
  - cbn [length]. rewrite !length_app. cbn [length]. rewrite length_app.
    cbn [length]. do 2 f_equal; lia.
  - cbn [matchAt prevAfter]. unfold only at 1 2. rewrite !N.eqb_refl.
    rewrite (greedy_max (except rparen) _ u (rparen :: X) (1, []));
      [reflexivity|assumption|assumption|reflexivity|reflexivity].
Qed.

Lemma markdown_cons (g : segment) (gs : list segment) :
  markdown (g :: gs) = render g ++ markdown gs.
Proof. reflexivity. Qed.

Ltac split_ok H :=
  repeat match type of H with
         | (_ && _) = true =>
             let H' := fresh H in apply andb_prop in H as [H H']
         end.

Ltac block_free :=
  cbn [forallb]; rewrite ?forallb_app; cbn [forallb];
  repeat match goal with
         | E : forallb _ _ = true |- _ => rewrite E
         end;
  reflexivity.

(** The first pass replaces every link by its text and leaves the rest. *)
Lemma link_pass (gs : list segment) :
  forallb okSegment gs = true ->
  forall prev,
    replaceFrom reLink prev (markdown gs) 0 = markdown (map unlink gs).
Proof.
  induction gs as [|g gs IH]; intros Hok prev; [reflexivity|].
  cbn [forallb] in Hok. apply andb_prop in Hok as [Hg Hgs].
  cbn [map]. rewrite !markdown_cons.
  destruct g as [t|t u|t|t|t]; cbn [okSegment] in Hg; cbn [unlink render].
  - destruct (plainText_except t Hg) as (E1 & _ & _).
    rewrite (replaceFrom_pass reLink lbracket _ t (markdown gs) eq_refl E1).
    now rewrite IH.
  - split_ok Hg.
    rewrite (replaceFrom_match reLink
               (lbracket :: t ++ rbracket :: lparen :: u ++ [rparen])
               (markdown gs) prev [t]).
    + cbn [dollar1 nth]. now rewrite IH.
    + discriminate.
    + apply reLink_match; auto using truthy_nonempty.
  - split_ok Hg. destruct (plainText_except t Hg0) as (E1 & _ & _).
    rewrite (replaceFrom_pass reLink lbracket _
               (star :: star :: t ++ [star; star]) (markdown gs) eq_refl)
      by block_free.
    now rewrite IH.
  - split_ok Hg. destruct (plainText_except t Hg0) as (E1 & _ & _).
    rewrite (replaceFrom_pass reLink lbracket _
               (star :: t ++ [star]) (markdown gs) eq_refl)
      by block_free.
    now rewrite IH.
  - split_ok Hg. destruct (plainText_except t Hg0) as (E1 & _ & _).
    rewrite (replaceFrom_pass reLink lbracket _
               (backtick :: t ++ [backtick]) (markdown gs) eq_refl)
      by block_free.
    now rewrite IH.
Qed.

(** The second pass replaces bold text; italic text is left when no star
    follows it. *)
Lemma bold_pass (gs : list segment) :
  forallb okSegment gs = true ->
  forallb (fun g => level g <=? 3) gs = true ->
  italicsApart gs = true ->
  forall prev,
    replaceFrom reBold prev (markdown gs) 0 = markdown (map unbold gs).
Proof.
  induction gs as [|g gs IH]; intros Hok Hlv Hap prev; [reflexivity|].
  cbn [forallb] in Hok, Hlv. apply andb_prop in Hok as [Hg Hgs].
  apply andb_prop in Hlv as [Hl Hls].
  cbn [map]. rewrite !markdown_cons.
  destruct g as [t|t u|t|t|t]; cbn [okSegment] in Hg; cbn [unbold render];
    cbn [italicsApart] in Hap.
  - destruct (plainText_except t Hg) as (_ & E2 & _).
    rewrite (replaceFrom_pass reBold star _ t (markdown gs) eq_refl E2).
    now rewrite IH.
  - discriminate.
  - split_ok Hg. destruct (plainText_except t Hg0) as (_ & E2 & _).
    rewrite (replaceFrom_match reBold (star :: star :: t ++ [star; star])
               (markdown gs) prev [t]).
    + cbn [dollar1 nth]. now rewrite IH.
    + discriminate.
    + apply reBold_match; auto using truthy_nonempty.
  - split_ok Hg. destruct (plainText_except t Hg0) as (_ & E2 & _).
    apply andb_prop in Hap as [Hstar Hap]. apply negb_true_iff in Hstar.
    cbn [app]. rewrite <- app_assoc. cbn [app].
    rewrite replaceFrom_keep.
    2:{ cbn [multiline pattern reBold matchAt]. unfold only at 1.
        rewrite N.eqb_refl. destruct t as [|c t']; [discriminate|].
        cbn [app forallb] in *. apply andb_prop in E2 as [E2 _].
        unfold except in E2. apply negb_true_iff in E2. unfold only at 1.
        now rewrite E2. }
    rewrite (replaceFrom_pass reBold star _ t (star :: markdown gs) eq_refl E2).
    rewrite replaceFrom_keep.
    2:{ cbn [multiline pattern reBold matchAt]. unfold only at 1.
        rewrite N.eqb_refl. destruct (markdown gs) as [|x X]; [reflexivity|].
        cbn [startsWith] in Hstar. unfold only at 1. now rewrite Hstar. }
    rewrite IH by assumption. cbn [app]. now rewrite <- app_assoc.
  - split_ok Hg. destruct (plainText_except t Hg0) as (_ & E2 & _).
    rewrite (replaceFrom_pass reBold star _
               (backtick :: t ++ [backtick]) (markdown gs) eq_refl)
      by block_free.
    now rewrite IH.
Qed.

(** The third pass replaces italic text. *)
Lemma italic_pass (gs : list segment) :
  forallb okSegment gs = true ->
  forallb (fun g => level g <=? 2) gs = true ->
  forall prev,
    replaceFrom reItalic prev (markdown gs) 0 = markdown (map unitalic gs).
Proof.
  induction gs as [|g gs IH]; intros Hok Hlv prev; [reflexivity|].
  cbn [forallb] in Hok, Hlv. apply andb_prop in Hok as [Hg Hgs].
  apply andb_prop in Hlv as [Hl Hls].
  cbn [map]. rewrite !markdown_cons.
  destruct g as [t|t u|t|t|t]; cbn [okSegment] in Hg;
    cbn [unitalic render]; try discriminate.
  - destruct (plainText_except t Hg) as (_ & E2 & _).
    rewrite (replaceFrom_pass reItalic star _ t (markdown gs) eq_refl E2).
    now rewrite IH.
  - split_ok Hg. destruct (plainText_except t Hg0) as (_ & E2 & _).
    rewrite (replaceFrom_match reItalic (star :: t ++ [star])
               (markdown gs) prev [t]).
    + cbn [dollar1 nth]. now rewrite IH.
    + discriminate.
    + apply reItalic_match; auto using truthy_nonempty.
  - split_ok Hg. destruct (plainText_except t Hg0) as (_ & E2 & _).
    rewrite (replaceFrom_pass reItalic star _
               (backtick :: t ++ [backtick]) (markdown gs) eq_refl)
      by block_free.
    now rewrite IH.
Qed.

(** The fourth pass replaces inline code. *)
Lemma code_pass (gs : list segment) :
  forallb okSegment gs = true ->
  forallb (fun g => level g <=? 1) gs = true ->
  forall prev,
    replaceFrom reCode prev (markdown gs) 0 = markdown (map uncode gs).
Proof.
  induction gs as [|g gs IH]; intros Hok Hlv prev; [reflexivity|].
  cbn [forallb] in Hok, Hlv. apply andb_prop in Hok as [Hg Hgs].
  apply andb_prop in Hlv as [Hl Hls].
  cbn [map]. rewrite !markdown_cons.
  destruct g as [t|t u|t|t|t]; cbn [okSegment] in Hg;
    cbn [uncode render]; try discriminate.
  - destruct (plainText_except t Hg) as (_ & _ & E3).
    rewrite (replaceFrom_pass reCode backtick _ t (markdown gs) eq_refl E3).
    now rewrite IH.
  - split_ok Hg. destruct (plainText_except t Hg0) as (_ & _ & E3).
    rewrite (replaceFrom_match reCode (backtick :: t ++ [backtick])
               (markdown gs) prev [t]).
    + cbn [dollar1 nth]. now rewrite IH.
    + discriminate.
    + apply reCode_match; auto using truthy_nonempty.
Qed.

Lemma unlink_ok (gs : list segment) :
  forallb okSegment gs = true ->
  forallb okSegment (map unlink gs) = true
  /\ forallb (fun g => level g <=? 3) (map unlink gs) = true.
Proof.
  induction gs as [|g gs IH]; [now split|].
  cbn [forallb map]. intros H. apply andb_prop in H as [Hg Hgs].
  destruct (IH Hgs) as [-> ->].
  destruct g; cbn [unlink okSegment level] in *; rewrite ?Hg; auto.
  split_ok Hg. now rewrite Hg3.
Qed.

Lemma unbold_ok (gs : list segment) :
  forallb okSegment gs = true ->
  forallb (fun g => level g <=? 3) gs = true ->
  forallb okSegment (map unbold gs) = true
  /\ forallb (fun g => level g <=? 2) (map unbold gs) = true.
Proof.
  induction gs as [|g gs IH]; [now split|].
  cbn [forallb map]. intros H L. apply andb_prop in H as [Hg Hgs].
  apply andb_prop in L as [Lg Lgs]. destruct (IH Hgs Lgs) as [-> ->].
  destruct g; cbn [unbold okSegment level] in *; rewrite ?Hg; auto;
    try discriminate.
  split_ok Hg. now rewrite Hg0.
Qed.

Lemma unitalic_ok (gs : list segment) :
  forallb okSegment gs = true ->
  forallb (fun g => level g <=? 2) gs = true ->
  forallb okSegment (map unitalic gs) = true
  /\ forallb (fun g => level g <=? 1) (map unitalic gs) = true.
Proof.
  induction gs as [|g gs IH]; [now split|].
  cbn [forallb map]. intros H L. apply andb_prop in H as [Hg Hgs].
  apply andb_prop in L as [Lg Lgs]. destruct (IH Hgs Lgs) as [-> ->].
  destruct g; cbn [unitalic okSegment level] in *; rewrite ?Hg; auto;
    try discriminate.
  split_ok Hg. now rewrite Hg0.
Qed.

(** Replacing the links by their text puts no star at the front. *)
Lemma unlink_front (gs : list segment) :
  forallb okSegment gs = true ->
  startsWith star (markdown (map unlink gs)) = startsWith star (markdown gs).
Proof.
  induction gs as [|g gs IH]; [reflexivity|].
  cbn [forallb map]. intros H. apply andb_prop in H as [Hg Hgs].
  rewrite !markdown_cons.
  destruct g as [t|t u|t|t|t]; cbn [unlink render okSegment] in *;
    try reflexivity.
  - destruct t; [now apply IH|reflexivity].
  - split_ok Hg. destruct t as [|c t]; [discriminate|].
    cbn [plainText forallb] in Hg3. apply andb_prop in Hg3 as [Hc _].
    unfold plainUnit in Hc. split_ok Hc.
    cbn [app startsWith].
    match goal with
    | S : negb (c =? star)%N = true |- _ =>
        apply negb_true_iff in S; now rewrite S
    end.
Qed.

Lemma unlink_apart (gs : list segment) :
  forallb okSegment gs = true -> italicsApart gs = true ->
  italicsApart (map unlink gs) = true.
Proof.
  induction gs as [|g gs IH]; [reflexivity|].
  cbn [forallb map]. intros H A. apply andb_prop in H as [Hg Hgs].
  destruct g; cbn [unlink italicsApart] in *; auto.
  apply andb_prop in A as [A1 A2].
  rewrite (unlink_front gs Hgs), A1. now apply IH.
Qed.

(** With every decoration replaced, what is left is the text. *)
Lemma stripped_text (gs : list segment) :
  markdown (map uncode (map unitalic (map unbold (map unlink gs))))
  = textOf gs.
Proof.
  induction gs as [|g gs IH]; [reflexivity|].
  cbn [map]. rewrite markdown_cons, IH. now destruct g.
Qed.

Lemma textOf_plain (gs : list segment) :
  forallb okSegment gs = true -> plainText (textOf gs) = true.
Proof.
  unfold plainText. induction gs as [|g gs IH]; [reflexivity|].
  cbn [forallb textOf flat_map]. intros H. apply andb_prop in H as [Hg Hgs].
  rewrite forallb_app. fold (textOf gs). rewrite (IH Hgs), andb_true_r.
  destruct g; cbn [okSegment innerText] in *; split_ok Hg; assumption.
Qed.

Lemma trim_forallb (f : char -> bool) (s : jsstring) :
  forallb f s = true -> forallb f (trim s) = true.
Proof.
  intros H. unfold trim.
  destruct (trimStart_suffix s) as [w Hw]. rewrite Hw in H.
  rewrite forallb_app in H. apply andb_prop in H as [_ H].
  destruct (trimEnd_prefix (trimStart s)) as [w' Hw']. rewrite Hw' in H.
  rewrite forallb_app in H. now apply andb_prop in H as [H _].
Qed.

(** C8 (amended).  When the accumulated string is made of plain text and
    of links, bold text, italic text and inline code that do not nest
    (their inner text is plain and not empty, and no italic text has a
    star directly after it), the clean-up replaces every decoration by its
    inner text: the cleaned string is the trimmed text, no unit of it opens
    a decoration, and it is the description returned, or [null] when it is
    empty. *)
Theorem C8_decorations
    (content : jsstring) (startIndex : nat) (gs : list segment) :
  let lines := split LF content in
  skipLoop (Nat.min 5 (length lines)) lines 0 0 = Normal startIndex ->
  collectLoop (length lines - startIndex) lines startIndex []
  = Normal (markdown gs) ->
  wellFormed gs = true ->
  cleanUp (markdown gs) = trim (textOf gs)
  /\ plainText (cleanUp (markdown gs)) = true
  /\ extractDescription content
     = Normal (if 0 <? length (trim (textOf gs))
               then Some (trim (textOf gs)) else None).
Proof.
  intros lines Hskip Hcollect H.
  unfold wellFormed in H. apply andb_prop in H as [Hok Hap].
  assert (E : cleanUp (markdown gs) = trim (textOf gs)).
  { unfold cleanUp, replaceAll.
    destruct (unlink_ok gs Hok) as [Hok1 Hl1].
    destruct (unbold_ok _ Hok1 Hl1) as [Hok2 Hl2].
    destruct (unitalic_ok _ Hok2 Hl2) as [Hok3 Hl3].
    rewrite (link_pass gs Hok).
    rewrite (bold_pass _ Hok1 Hl1 (unlink_apart gs Hok Hap)).
    rewrite (italic_pass _ Hok2 Hl2).
    rewrite (code_pass _ Hok3 Hl3).
    now rewrite stripped_text. }
  split; [exact E|]. split.
  - rewrite E. apply trim_forallb, textOf_plain, Hok.
  - unfold extractDescription. fold lines. rewrite Hskip. cbn [bind].
    rewrite Hcollect. cbn [bind]. now rewrite E.
Qed.

(** Witness of C8: a heading, then a line with one decoration of each
    kind. *)
Lemma C8_decorations_witness :
  extractDescription
    (lit "# Title" ++ [LF] ++ [LF]
     ++ lit "see [the docs](http://x.y) and **bold**, *it* and `code`.")
  = Normal (Some (lit "see the docs and bold, it and code.")).
Proof.
  exact (proj2 (proj2
    (C8_decorations
       (lit "# Title" ++ [LF] ++ [LF]
        ++ lit "see [the docs](http://x.y) and **bold**, *it* and `code`.")
       2
       [Plain (lit "see "); Link (lit "the docs") (lit "http://x.y");
        Plain (lit " and "); Bold (lit "bold"); Plain (lit ", ");
        Italic (lit "it"); Plain (lit " and "); Code (lit "code");
        Plain (lit ".")]
       eq_refl eq_refl eq_refl))).
Defined.

(** Counterexample to C8: bold text with italic text inside comes back as
    italic text, which the italic pattern still matches; and a link whose
    parenthesis sits in inline code is put together by the last pass. *)
Lemma C8_counterexample :
  extractDescription (lit "**bold *italic* text**")
  = Normal (Some (lit "*bold italic text*"))
  /\ stringMatch reItalic (lit "*bold italic text*")
     = Some (ExecResult 0 18 [lit "bold italic text"])
  /\ extractDescription (lit "[a]`(`u)") = Normal (Some (lit "[a](u)"))
  /\ stringMatch reLink (lit "[a](u)") = Some (ExecResult 0 6 [lit "a"]).
Proof. repeat split; vm_compute; reflexivity. Qed.

(** * Further properties of the extractor *)

(** ** The formatted name *)

Lemma toUpperUnit_lower (up : char -> jsstring) (c : char) :
  (97 <= c)%N -> (c <= 122)%N -> toUpperUnit up c = [(c - 32)%N].
Proof.
  intros L1 L2. unfold toUpperUnit.
  apply N.leb_le in L1, L2. now rewrite L1, L2.
Qed.

Lemma toUpperUnit_other (up : char -> jsstring) (c : char) :
  (c < 128)%N -> (c < 97 \/ 122 < c)%N -> toUpperUnit up c = [c].
Proof.
  intros L H. unfold toUpperUnit. apply N.ltb_lt in L. rewrite L.
  destruct H as [H|H].
  - apply N.leb_gt in H. now rewrite H.
  - apply N.leb_gt in H. rewrite H. now rewrite andb_false_r.
Qed.

Lemma toUpperUnit_basicLatin (up : char -> jsstring) (c : char) :
  (c <? 128)%N = true ->
  exists c', toUpperUnit up c = [c']
             /\ (c' <? 128)%N = true
             /\ toUpperUnit up c' = [c']
             /\ (c <> dash -> c' <> dash).
Proof.
  intros Hc. apply N.ltb_lt in Hc.
  destruct (N.le_gt_cases 97 c) as [L1|L1];
    [destruct (N.le_gt_cases c 122) as [L2|L2]|].
  - exists (c - 32)%N. split; [now apply toUpperUnit_lower|].
    split; [apply N.ltb_lt; lia|]. split.
    + apply toUpperUnit_other; lia.
    + unfold dash. lia.
  - exists c. rewrite toUpperUnit_other by auto.
    repeat split; auto. now apply N.ltb_lt.
  - exists c. rewrite toUpperUnit_other by auto.
    repeat split; auto. now apply N.ltb_lt.
Qed.

Lemma titleCase_basicLatin (up : char -> jsstring) (s : jsstring) :
  forall b, basicLatin s = true ->
    length (titleCase up b s) = length s
    /\ forallb (except dash) (titleCase up b s) = true
    /\ basicLatin (titleCase up b s) = true.
Proof.
  unfold basicLatin.
  induction s as [|c s IH]; intros b H; [now repeat split|].
  cbn [forallb] in H. apply andb_prop in H as [Hc Hs].
  cbn [titleCase]. destruct (c =? dash)%N eqn:E.
  - destruct (IH true Hs) as (I1 & I2 & I3).
    cbn [length forallb]. rewrite I1, I2, I3. now repeat split.
  - destruct (IH false Hs) as (I1 & I2 & I3).
    apply N.eqb_neq in E.
    destruct (toUpperUnit_basicLatin up c Hc) as (c' & U & L & _ & D).
    assert (F : forall x, x <> dash -> (x <? 128)%N = true ->
                length ([x] ++ titleCase up false s) = length (c :: s)
                /\ forallb (except dash) ([x] ++ titleCase up false s) = true
                /\ forallb (fun c => (c <? 128)%N)
                     ([x] ++ titleCase up false s) = true).
    { intros x Dx Lx. cbn [app length forallb]. rewrite I1, I2, I3, Lx.
      unfold except. apply N.eqb_neq in Dx. rewrite Dx. now repeat split. }
    destruct b; [rewrite U; apply F; auto|apply F; auto].
Qed.

(** X1. A name in Basic Latin keeps its length when formatted, and the result
    has no dash left in it: every dash has become one space and every other
    unit one unit. *)
Theorem formatRepoName_basicLatin
    (up : char -> jsstring) (repoName : jsstring) :
  basicLatin repoName = true ->
  length (formatRepoName up repoName) = length repoName
  /\ forallb (except dash) (formatRepoName up repoName) = true
  /\ basicLatin (formatRepoName up repoName) = true.
Proof.
  intros H. rewrite formatRepoName_titleCase.
  now apply titleCase_basicLatin.
Qed.

Lemma formatRepoName_basicLatin_witness :
  length (formatRepoName sameUnit (lit "unix-shell-basics")) = 17
  /\ forallb (except dash) (formatRepoName sameUnit (lit "unix-shell-basics"))
     = true.
Proof.
  destruct (formatRepoName_basicLatin sameUnit (lit "unix-shell-basics"))
    as (L & D & _).
  - reflexivity.
  - split; [rewrite L; reflexivity|exact D].
Defined.

Lemma titleCase_no_dash (up : char -> jsstring) (s : jsstring) :
  forallb (except dash) s = true -> titleCase up false s = s.
Proof.
  induction s as [|c s IH]; [reflexivity|].
  cbn [forallb titleCase]. intros H. apply andb_prop in H as [Hc Hs].
  unfold except in Hc. apply negb_true_iff in Hc. rewrite Hc.
  cbn [app]. now rewrite IH.
Qed.

(** The first unit of a formatted Basic Latin name is left alone by
    another upper-casing. *)
Lemma titleCase_head_fixed (up : char -> jsstring) (s : jsstring) :
  basicLatin s = true ->
  match titleCase up true s with
  | c :: _ => toUpperUnit up c = [c]
  | [] => True
  end.
Proof.
  unfold basicLatin. destruct s as [|c s]; [intros _; exact I|].
  cbn [forallb titleCase]. intros H. apply andb_prop in H as [Hc _].
  destruct (c =? dash)%N; [reflexivity|].
  destruct (toUpperUnit_basicLatin up c Hc) as (c' & U & _ & F & _).
  rewrite U. exact F.
Qed.

(** X2. Formatting a formatted name changes nothing: for names in Basic Latin
    [formatRepoName] is idempotent. *)
Theorem formatRepoName_idempotent
    (up : char -> jsstring) (repoName : jsstring) :
  basicLatin repoName = true ->
  formatRepoName up (formatRepoName up repoName)
  = formatRepoName up repoName.
Proof.
  intros H. rewrite !formatRepoName_titleCase.
  destruct (titleCase_basicLatin up repoName true H) as (_ & D & _).
  pose proof (titleCase_head_fixed up repoName H) as F.
  destruct (titleCase up true repoName) as [|c r]; [reflexivity|].
  cbn [forallb] in D. apply andb_prop in D as [Dc Dr].
  cbn [titleCase]. unfold except in Dc. apply negb_true_iff in Dc.
  rewrite Dc, F, (titleCase_no_dash up r Dr). reflexivity.
Qed.

Lemma formatRepoName_idempotent_witness :
  formatRepoName sameUnit (formatRepoName sameUnit (lit "shell-c"))
  = lit "Shell C".
Proof.
  rewrite (formatRepoName_idempotent sameUnit (lit "shell-c")).
  - reflexivity.
  - reflexivity.
Defined.

(** ** The units of the description *)

(** The captures of a match are made of units of the input. *)
Lemma matchAt_captures (f : char -> bool) (m : bool) (r : list atom) :
  forall prev s n caps,
    forallb f s = true ->
    matchAt m r prev s = Some (n, caps) ->
    forallb (forallb f) caps = true.
Proof.
  induction r as [|a r IH]; intros prev s n caps Hs; simpl.
  - intros H; now injection H as _ <-.
  - destruct a.
    + destruct (atLineStart m prev); [now apply IH|discriminate].
    + destruct (atLineEnd m s); [now apply IH|discriminate].
    + destruct s as [|c s]; [discriminate|].
      destruct (p c); [|discriminate].
      destruct (matchAt m r (Some c) s) as [[n' caps']|] eqn:E;
        [|discriminate].
      intros H; injection H as _ <-.
      simpl in Hs. apply andb_prop in Hs as [_ Hs]. exact (IH _ _ _ _ Hs E).
    + destruct (greedy p (matchAt m r) s) as [[run [n' caps']]|] eqn:G;
        [|discriminate].
      intros H; injection H as _ <-.
      apply greedy_inv in G as (rest & -> & _ & _ & K).
      rewrite forallb_app in Hs. apply andb_prop in Hs as [_ Hs].
      exact (IH _ _ _ _ Hs K).
    + destruct (greedy p (matchAt m r) s) as [[run [n' caps']]|] eqn:G;
        [|discriminate].
      intros H; injection H as _ <-.
      apply greedy_inv in G as (rest & -> & _ & _ & K).
      rewrite forallb_app in Hs. apply andb_prop in Hs as [Hrun Hs].
      cbn [forallb]. now rewrite Hrun, (IH _ _ _ _ Hs K).
Qed.

Lemma dollar1_forallb (f : char -> bool) (caps : list jsstring) :
  forallb (forallb f) caps = true -> forallb f (dollar1 caps) = true.
Proof.
  unfold dollar1. destruct caps as [|c caps]; [reflexivity|].
  cbn [forallb nth]. intros H. now apply andb_prop in H as [H _].
Qed.

(** A global replacement by the first capture brings in no new unit. *)
Lemma replaceFrom_forallb (f : char -> bool) (re : regexp) (s : jsstring) :
  forall prev skip,
    forallb f s = true -> forallb f (replaceFrom re prev s skip) = true.
Proof.
  induction s as [|c s IH]; intros prev skip Hs.
  - cbn [replaceFrom]. destruct skip; [|reflexivity].
    destruct (matchAt _ _ prev []) as [[n caps]|] eqn:E; [|reflexivity].
    apply dollar1_forallb. exact (matchAt_captures f _ _ _ _ _ _ Hs E).
  - cbn [replaceFrom]. pose proof Hs as Hs'.
    cbn [forallb] in Hs. apply andb_prop in Hs as [Hc Hs].
    destruct skip as [|k]; [|now apply IH].
    destruct (matchAt _ _ prev (c :: s)) as [[n caps]|] eqn:E.
    + pose proof (dollar1_forallb f caps
                    (matchAt_captures f _ _ _ _ _ _ Hs' E)) as D.
      destruct n as [|n]; rewrite forallb_app, D; cbn [forallb andb].
      * rewrite Hc. now apply IH.
      * now apply IH.
    + cbn [forallb]. rewrite Hc. now apply IH.
Qed.

Lemma cleanUp_forallb (f : char -> bool) (d : jsstring) :
  forallb f d = true -> forallb f (cleanUp d) = true.
Proof.
  intros H. unfold cleanUp, replaceAll.
  apply trim_forallb. repeat apply replaceFrom_forallb. exact H.
Qed.

Lemma firstn_forallb {A : Type} (f : A -> bool) (n : nat) (l : list A) :
  forallb f l = true -> forallb f (firstn n l) = true.
Proof.
  revert n. induction l as [|x l IH]; intros [|n]; simpl; auto.
  intros H. apply andb_prop in H as [-> H]. now apply IH.
Qed.

Lemma cutAtSentence_forallb (f : char -> bool) (d : jsstring) :
  forallb f d = true -> forallb f (cutAtSentence d) = true.
Proof.
  intros H. rewrite cutAtSentence_eq.
  destruct (firstBoundary d); [|exact H].
  now apply trim_forallb, firstn_forallb.
Qed.

Lemma appended_forallb (f : char -> bool) (d line : jsstring) :
  f space = true -> forallb f d = true -> forallb f line = true ->
  forallb f (appended d line) = true.
Proof.
  intros Hsp Hd Hl. unfold appended. rewrite !forallb_app, Hd, Hl.
  destruct (truthy d); cbn [forallb]; now rewrite ?Hsp.
Qed.

Lemma collect_forallb (f : char -> bool) (ls : list jsstring) :
  f space = true ->
  forallb (forallb f) ls = true ->
  forall d, forallb f d = true -> forallb f (collect ls d) = true.
Proof.
  intros Hsp. induction ls as [|l ls IH]; intros Hls d Hd; [exact Hd|].
  cbn [forallb] in Hls. apply andb_prop in Hls as [Hl Hls].
  cbn [collect]. destruct (startsWith hash (trim l)); [exact Hd|].
  pose proof (trim_forallb f l Hl) as Ht.
  destruct (trim l) as [|c t].
  - destruct d; [now apply IH|exact Hd].
  - pose proof (appended_forallb f d (c :: t) Hsp Hd Ht) as Ha.
    destruct (150 <? _); [now apply cutAtSentence_forallb|now apply IH].
Qed.

Lemma split_forallb (f : char -> bool) (sep : char) (s : jsstring) :
  forallb (fun c => (c =? sep)%N || f c) s = true ->
  forallb (forallb f) (split sep s) = true.
Proof.
  induction s as [|c s IH]; [reflexivity|].
  cbn [forallb split]. intros H. apply andb_prop in H as [Hc Hs].
  specialize (IH Hs). destruct (c =? sep)%N.
  - cbn [forallb]. exact IH.
  - cbn [orb] in Hc. destruct (split sep s) as [|w ws].
    + cbn [forallb]. now rewrite Hc.
    + cbn [forallb] in *. apply andb_prop in IH as [-> ->]. now rewrite Hc.
Qed.

Lemma description_carries
    (f : char -> bool) (content d : jsstring) :
  f space = true ->
  forallb (fun c => (c =? LF)%N || f c) content = true ->
  extractDescription content = Normal (Some d) ->
  forallb f d = true.
Proof.
  intros Hsp Hc H. rewrite extractDescription_eq in H. cbv zeta in H.
  destruct (0 <? _); [|discriminate]. injection H as <-.
  apply cleanUp_forallb, collect_forallb; [exact Hsp| |reflexivity].
  apply forallb_skipn, split_forallb. exact Hc.
Qed.

(** X3. Every unit of the description is a space or a unit of the document
    other than the line feed: what holds of the space and of those units
    holds of every unit of the description.  So the description is a single
    line: it never holds a line feed. *)
Theorem description_units
    (f : char -> bool) (content d : jsstring) :
  f space = true ->
  forallb (fun c => (c =? LF)%N || f c) content = true ->
  extractDescription content = Normal (Some d) ->
  forallb f d = true /\ forallb (except LF) d = true.
Proof.
  intros Hsp Hc H. split; [exact (description_carries f content d Hsp Hc H)|].
  apply (description_carries (except LF) content d); [reflexivity| |exact H].
  apply forallb_forall. intros c _. unfold except.
  now destruct (c =? LF)%N.
Qed.

Lemma description_units_witness :
  forallb (fun c => (c <? 128)%N) (lit "install it, then run it.") = true
  /\ forallb (except LF) (lit "install it, then run it.") = true.
Proof.
  apply (description_units (fun c => (c <? 128)%N)
           (lit "# Tool" ++ [LF] ++ lit "install it," ++ [LF]
            ++ lit "then run it.")).
  - reflexivity.
  - reflexivity.
  - reflexivity.
Defined.

(** ** The ends of the description *)

Lemma trimEnd_last (s : jsstring) :
  forall u c, trimEnd s = u ++ [c] -> isWhiteSpace c = false.
Proof.
  induction s as [|a s IH]; intros u c; simpl.
  - destruct u; discriminate.
  - destruct (trimEnd s) as [|y t] eqn:E.
    + destruct (isWhiteSpace a) eqn:Ha; [destruct u; discriminate|].
      destruct u as [|x u]; [intros H; now injection H as <-|].
      destruct u; discriminate.
    + destruct u as [|x u]; [discriminate|].
      intros H. injection H as _ H. exact (IH u c H).
Qed.

(** A trimmed string is empty, or starts and ends with units that are not
    white space. *)
Lemma trim_ends (s : jsstring) :
  trim s = []
  \/ exists u c, trim s = u ++ [c]
       /\ startsClean (u ++ [c]) = true /\ isWhiteSpace c = false.
Proof.
  destruct (trim s) as [|a t] eqn:E; [now left|right].
  assert (NE : a :: t <> []) by discriminate.
  destruct (exists_last NE) as (u & c & Eu). rewrite Eu in *.
  exists u, c. split; [reflexivity|]. split.
  - destruct u as [|x u]; simpl in *; injection Eu as -> _;
      now rewrite (trim_head _ _ _ E).
  - unfold trim in E. now apply (trimEnd_last _ _ _ E).
Qed.

(** X4. The description, when there is one, neither starts nor ends with
    white space. *)
Theorem description_trimmed (content d : jsstring) :
  extractDescription content = Normal (Some d) ->
  exists u c, d = u ++ [c]
    /\ startsClean d = true /\ isWhiteSpace c = false /\ trim d = d.
Proof.
  intros H. rewrite extractDescription_eq in H. cbv zeta in H.
  set (r := collect _ _) in H. unfold cleanUp in H.
  set (x := replaceAll _ _) in H.
  destruct (trim_ends x) as [E|(u & c & E & S & W)]; rewrite E in H.
  - discriminate.
  - destruct (0 <? _); [|discriminate]. injection H as <-.
    exists u, c. repeat split; auto. now apply trim_fixed.
Qed.

Lemma description_trimmed_witness :
  exists u c, lit "install it, then run it." = u ++ [c]
    /\ isWhiteSpace c = false.
Proof.
  destruct (description_trimmed
              (lit "# Tool" ++ [LF] ++ lit "  install it,  " ++ [LF]
               ++ lit "then run it.  ")
              (lit "install it, then run it."))
    as (u & c & E & _ & W & _).
  - reflexivity.
  - now exists u, c.
Defined.

(** ** What the description does not depend on *)

Lemma takeWhile_blanks_then_text (n : nat) (blanks rest : list jsstring)
    (l : jsstring) :
  forallb blank blanks = true -> skippable l = false ->
  exists k, length (takeWhile skippable (firstn n (blanks ++ l :: rest))) = k
            /\ skipn k (blanks ++ l :: rest)
               = skipn k blanks ++ l :: rest
            /\ k <= length blanks.
Proof.
  intros Hb Hl. revert n. induction blanks as [|b blanks IH]; intros n.
  - exists 0. destruct n; simpl; [auto|]. rewrite Hl. auto.
  - cbn [forallb] in Hb. apply andb_prop in Hb as [Hb1 Hb2].
    destruct n as [|n]; [exists 0; simpl; split; [reflexivity|split; [reflexivity|lia]]|].
    destruct (IH Hb2 n) as (k & E1 & E2 & E3).
    exists (S k). cbn [app firstn takeWhile].
    assert (S : skippable b = true).
    { unfold skippable. unfold blank in Hb1. rewrite Hb1. apply orb_true_r. }
    rewrite S. cbn [length skipn]. rewrite E1. repeat split; auto.
    simpl. lia.
Qed.

Lemma skipn_blanks (k : nat) (blanks : list jsstring) :
  forallb blank blanks = true -> forallb blank (skipn k blanks) = true.
Proof. apply forallb_skipn. Qed.

(** X5. Blank lines in front of a document that starts with a line of text
    do not change its description, however many they are. *)
Theorem description_leading_blanks
    (content content' : jsstring) (blanks rest : list jsstring)
    (l : jsstring) :
  split LF content = l :: rest ->
  skippable l = false ->
  split LF content' = blanks ++ l :: rest ->
  forallb blank blanks = true ->
  extractDescription content' = extractDescription content.
Proof.
  intros Hs Hl Hs' Hb. rewrite !extractDescription_eq. cbv zeta.
  rewrite Hs, Hs'.
  destruct (takeWhile_blanks_then_text 5 blanks rest l Hb Hl)
    as (k & -> & -> & _).
  rewrite (collect_blanks _ _ (skipn_blanks k blanks Hb)).
  cbn [firstn takeWhile]. rewrite Hl. reflexivity.
Qed.

Lemma description_leading_blanks_witness :
  extractDescription
    ([LF] ++ [LF] ++ [LF] ++ [LF] ++ [LF] ++ [LF] ++ lit "   " ++ [LF]
     ++ lit "Some text." ++ [LF] ++ lit "More.")
  = extractDescription (lit "Some text." ++ [LF] ++ lit "More.").
Proof.
  apply (description_leading_blanks
           (lit "Some text." ++ [LF] ++ lit "More.") _
           [[]; []; []; []; []; []; lit "   "] [lit "More."]
           (lit "Some text.")).
  - reflexivity.
  - reflexivity.
  - reflexivity.
  - reflexivity.
Defined.

Section SameTrimmedLines.

(** Two documents whose lines are the same once trimmed. *)
Variables l1 l2 : list jsstring.
Hypothesis same : map trim l1 = map trim l2.

Lemma same_takeWhile (n : nat) :
  length (takeWhile skippable (firstn n l1))
  = length (takeWhile skippable (firstn n l2)).
Proof.
  revert same n. revert l2.
  induction l1 as [|a la IH]; intros [|b lb] E n; try discriminate.
  - reflexivity.
  - cbn [map] in E. injection E as Eab E.
    destruct n as [|n]; [reflexivity|]. cbn [firstn takeWhile].
    unfold skippable at 1 3. rewrite Eab.
    destruct (_ || _); [|reflexivity]. cbn [length]. f_equal.
    now apply IH.
Qed.

Lemma same_skipn (k : nat) :
  map trim (skipn k l1) = map trim (skipn k l2).
Proof. now rewrite <- !skipn_map, same. Qed.

End SameTrimmedLines.

Lemma same_collect (l1 : list jsstring) :
  forall l2 d, map trim l1 = map trim l2 -> collect l1 d = collect l2 d.
Proof.
  induction l1 as [|a la IH]; intros [|b lb] d E; try discriminate.
  - reflexivity.
  - cbn [map] in E. injection E as Eab E. cbn [collect]. rewrite Eab.
    destruct (startsWith hash (trim b)); [reflexivity|].
    destruct (trim b); [destruct d; auto|].
    destruct (150 <? _); auto.
Qed.

(** X6. The description depends on the lines only through their trimmed form:
    indentation, trailing white space and a carriage return at the end of
    each line make no difference. *)
Theorem description_trimmed_lines (content content' : jsstring) :
  map trim (split LF content) = map trim (split LF content') ->
  extractDescription content = extractDescription content'.
Proof.
  intros E. rewrite !extractDescription_eq. cbv zeta.
  rewrite (same_takeWhile _ _ E 5).
  rewrite (same_collect _ _ [] (same_skipn _ _ E _)). reflexivity.
Qed.

Lemma description_trimmed_lines_witness :
  extractDescription
    (lit "# Tool" ++ [CR; LF] ++ [CR; LF] ++ lit "  It runs." ++ [CR; LF]
     ++ lit "Fast.  " ++ [CR; LF])
  = extractDescription
      (lit "# Tool" ++ [LF] ++ [LF] ++ lit "It runs." ++ [LF]
       ++ lit "Fast." ++ [LF]).
Proof.
  apply description_trimmed_lines. reflexivity.
Defined.

(** ** Bounds *)

Lemma cutAtSentence_length (d : jsstring) :
  length (cutAtSentence d) <= length d.
Proof.
  rewrite cutAtSentence_eq. destruct (firstBoundary d); [|lia].
  etransitivity; [apply trim_length|]. unfold substring0.
  rewrite length_firstn. lia.
Qed.

Lemma collect_length (M : nat) (ls : list jsstring) :
  forallb (fun l => length (trim l) <=? M) ls = true ->
  forall d, length d <= 150 -> length (collect ls d) <= 151 + M.
Proof.
  induction ls as [|l ls IH]; intros Hls d Hd; [simpl; lia|].
  cbn [forallb] in Hls. apply andb_prop in Hls as [Hl Hls].
  apply Nat.leb_le in Hl.
  cbn [collect]. destruct (startsWith hash (trim l)); [lia|].
  destruct (trim l) as [|c t] eqn:E.
  - destruct d; [now apply IH|lia].
  - destruct (Nat.ltb_spec 150 (length (appended d (c :: t)))) as [G|G].
    + etransitivity; [apply cutAtSentence_length|].
      unfold appended. rewrite !length_app.
      destruct (truthy d); simpl in *; lia.
    + now apply IH.
Qed.

(** X7. When no trimmed line is longer than [M] units, the description is at
    most [151 + M] units long: the threshold, a space and one line. *)
Theorem description_length
    (M : nat) (content d : jsstring) :
  forallb (fun l => length (trim l) <=? M) (split LF content) = true ->
  extractDescription content = Normal (Some d) ->
  length d <= 151 + M.
Proof.
  intros HM H. rewrite extractDescription_eq in H. cbv zeta in H.
  destruct (0 <? _); [|discriminate]. injection H as <-.
  etransitivity; [apply cleanUp_length|].
  apply collect_length; [now apply forallb_skipn|simpl; lia].
Qed.

Lemma description_length_witness :
  length sampleSentence <= 151 + 177.
Proof.
  apply (description_length 177 sampleLine sampleSentence).
  - reflexivity.
  - vm_compute. reflexivity.
Defined.

(** ** The window of five lines *)

Lemma takeWhile_all {A : Type} (f : A -> bool) (l rest : list A) :
  forallb f l = true ->
  takeWhile f (firstn (length l) (l ++ rest)) = l.
Proof.
  induction l as [|x l IH]; [reflexivity|].
  cbn [forallb length app firstn takeWhile]. intros H.
  apply andb_prop in H as [-> H]. now rewrite IH.
Qed.

(** X8. Headings are passed over only among the first five lines: when these
    are all blank or headings and the next line that is not blank is a
    heading too, there is no description, whatever text comes after. *)
Theorem description_sixth_heading
    (content : jsstring) (first5 blanks rest : list jsstring)
    (h : jsstring) :
  split LF content = first5 ++ blanks ++ h :: rest ->
  length first5 = 5 ->
  forallb skippable first5 = true ->
  forallb blank blanks = true ->
  heading h = true ->
  extractDescription content = Normal None.
Proof.
  intros Hs L5 Hf Hb Hh. rewrite extractDescription_eq. cbv zeta.
  rewrite Hs, <- L5, (takeWhile_all skippable first5 _ Hf).
  rewrite skipn_app, Nat.sub_diag, skipn_all. cbn [app skipn].
  rewrite (collect_blanks _ _ Hb). cbn [collect].
  unfold heading in Hh. rewrite Hh. reflexivity.
Qed.

Lemma description_sixth_heading_witness :
  extractDescription
    (lit "# A" ++ [LF] ++ lit "## B" ++ [LF] ++ lit "## C" ++ [LF]
     ++ lit "## D" ++ [LF] ++ lit "## E" ++ [LF] ++ lit "## F" ++ [LF]
     ++ lit "The text.")
  = Normal None.
Proof.
  apply (description_sixth_heading _
           [lit "# A"; lit "## B"; lit "## C"; lit "## D"; lit "## E"] []
           [lit "The text."] (lit "## F")).
  - reflexivity.
  - reflexivity.
  - reflexivity.
  - reflexivity.
  - reflexivity.
Defined.

(** ** Titles taken from a heading *)

(** X9. A document that begins with [#], white space and text has that text,
    trimmed, as its title when the text runs up to the end of the document
    or to a line terminator of any kind: a carriage return before the line
    feed does not get into the title. *)
Theorem title_first_line_heading
    (up : char -> jsstring) (ws : jsstring) (c : char) (t X : jsstring)
    (repoName : jsstring) :
  ws <> [] -> forallb isWhiteSpace ws = true ->
  isWhiteSpace c = false -> forallb anyButLineTerminator t = true ->
  atLineEnd true X = true ->
  extractTitle up (hash :: ws ++ c :: t ++ X) repoName
  = Normal (trim (c :: t)).
Proof.
  intros NE Hws Hc Ht HX. unfold extractTitle, stringMatch.
  destruct (reH1_at_heading None ws c t X 0 eq_refl NE Hws Hc Ht HX)
    as [n ->].
  reflexivity.
Qed.

Lemma title_first_line_heading_witness :
  extractTitle sameUnit
    (lit "# Field notes " ++ [CR; LF] ++ lit "Text." ++ [CR; LF])
    (lit "notes")
  = Normal (lit "Field notes").
Proof.
  assert (NE : lit " " <> []) by discriminate.
  exact (title_first_line_heading sameUnit (lit " ") 70%N
           (lit "ield notes ") (CR :: LF :: lit "Text." ++ [CR; LF])
           (lit "notes") NE eq_refl eq_refl eq_refl eq_refl).
Defined.

(** What the text group of a heading pattern holds: a run, not empty, of
    units other than line terminators. *)
Lemma heading_text_capture (prev : option char) (s : jsstring) (n : nat)
    (caps : list jsstring) :
  matchAt true [ClassPlus isWhiteSpace; GroupPlus anyButLineTerminator;
                AssertEnd] prev s = Some (n, caps) ->
  exists g, caps = [g] /\ g <> []
            /\ forallb anyButLineTerminator g = true.
Proof.
  cbn [matchAt].
  destruct (greedy isWhiteSpace _ s) as [[run [n1 caps1]]|] eqn:G;
    [|discriminate].
  intros H; injection H as _ <-.
  apply greedy_inv in G as (rest & _ & _ & _ & K). cbn [matchAt] in K.
  destruct (greedy anyButLineTerminator _ rest) as [[g [n2 caps2]]|] eqn:G2;
    [|discriminate].
  injection K as _ <-.
  apply greedy_inv in G2 as (rest2 & _ & NE & Hg & K2). cbn [matchAt] in K2.
  destruct (atLineEnd true rest2); [|discriminate].
  injection K2 as _ <-. now exists g.
Qed.

Lemma reH1_tail (prev : option char) (c : char) (s : jsstring) (n : nat)
    (caps : list jsstring) :
  matchAt true (pattern reH1) prev (c :: s) = Some (n, caps) ->
  exists n', matchAt true [ClassPlus isWhiteSpace;
                           GroupPlus anyButLineTerminator; AssertEnd]
               (Some c) s = Some (n', caps).
Proof.
  change (pattern reH1)
    with (AssertStart :: Class (only hash)
            :: [ClassPlus isWhiteSpace; GroupPlus anyButLineTerminator;
                AssertEnd]).
  cbn [matchAt]. destruct (atLineStart true prev); [|discriminate].
  destruct (only hash c); [|discriminate].
  destruct (greedy isWhiteSpace _ s) as [[run [n1 caps1]]|]; [|discriminate].
  intros H; injection H as _ <-. now eexists.
Qed.

Lemma reH2_tail (prev : option char) (c c' : char) (s : jsstring) (n : nat)
    (caps : list jsstring) :
  matchAt true (pattern reH2) prev (c :: c' :: s) = Some (n, caps) ->
  exists n', matchAt true [ClassPlus isWhiteSpace;
                           GroupPlus anyButLineTerminator; AssertEnd]
               (Some c') s = Some (n', caps).
Proof.
  change (pattern reH2)
    with (AssertStart :: Class (only hash) :: Class (only hash)
            :: [ClassPlus isWhiteSpace; GroupPlus anyButLineTerminator;
                AssertEnd]).
  cbn [matchAt]. destruct (atLineStart true prev); [|discriminate].
  destruct (only hash c); [|discriminate].
  destruct (only hash c'); [|discriminate].
  destruct (greedy isWhiteSpace _ s) as [[run [n1 caps1]]|]; [|discriminate].
  intros H; injection H as _ <-. now eexists.
Qed.

Lemma heading_match_capture (re : regexp) (content : jsstring)
    (e : execResult) :
  re = reH1 \/ re = reH2 ->
  stringMatch re content = Some e ->
  exists g, groups e = [g] /\ forallb anyButLineTerminator g = true.
Proof.
  intros Hre H. apply searchFrom_inv in H as (u & v & _ & _ & M).
  destruct Hre as [-> | ->]; cbn [multiline reH1 reH2] in M.
  - destruct v as [|x v].
    { cbn in M. destruct (atLineStart true (prevAfter None u));
        discriminate. }
    apply reH1_tail in M as [n' M].
    destruct (heading_text_capture _ _ _ _ M) as (g & -> & _ & Hg).
    now exists g.
  - destruct v as [|x [|y v]].
    + cbn in M. destruct (atLineStart true (prevAfter None u));
        discriminate.
    + cbn in M. destruct (atLineStart true (prevAfter None u));
        [|discriminate].
      destruct (only hash x); discriminate.
    + apply reH2_tail in M as [n' M].
      destruct (heading_text_capture _ _ _ _ M) as (g & -> & _ & Hg).
      now exists g.
Qed.

Lemma trim_idempotent (s : jsstring) : trim (trim s) = trim s.
Proof.
  destruct (trim_ends s) as [E|(u & c & E & S & W)]; rewrite E.
  - reflexivity.
  - now apply trim_fixed.
Qed.

(** X10. A title taken from a heading, of either level, is a single line (it
    holds no line terminator) and is trimmed. *)
Theorem title_from_heading
    (up : char -> jsstring) (content repoName t : jsstring) :
  stringMatch reH1 content <> None \/ stringMatch reH2 content <> None ->
  extractTitle up content repoName = Normal t ->
  forallb anyButLineTerminator t = true /\ trim t = t.
Proof.
  intros Hm H. unfold extractTitle in H.
  destruct (stringMatch reH1 content) as [e|] eqn:E1.
  - destruct (heading_match_capture reH1 content e (or_introl eq_refl) E1)
      as (g & G & Hg).
    unfold group, item in H. rewrite G in H. cbn in H. injection H as <-.
    split; [now apply trim_forallb|apply trim_idempotent].
  - destruct (stringMatch reH2 content) as [e|] eqn:E2.
    + destruct (heading_match_capture reH2 content e (or_intror eq_refl) E2)
        as (g & G & Hg).
      unfold group, item in H. rewrite G in H. cbn in H. injection H as <-.
      split; [now apply trim_forallb|apply trim_idempotent].
    + destruct Hm; congruence.
Qed.

Lemma title_from_heading_witness :
  forallb anyButLineTerminator (lit "foo") = true /\ trim (lit "foo") = lit "foo".
Proof.
  apply (title_from_heading sameUnit
           (lit "#" ++ [LF] ++ lit "  foo  " ++ [LF] ++ lit "# Bar")
           (lit "x") (lit "foo")).
  - left. discriminate.
  - reflexivity.
Defined.

(** ** The clean-up applied twice *)

Lemma cleanUp_markdown (gs : list segment) :
  wellFormed gs = true -> cleanUp (markdown gs) = trim (textOf gs).
Proof.
  unfold wellFormed. intros H. apply andb_prop in H as [Hok Hap].
  unfold cleanUp, replaceAll.
  destruct (unlink_ok gs Hok) as [Hok1 Hl1].
  destruct (unbold_ok _ Hok1 Hl1) as [Hok2 Hl2].
  destruct (unitalic_ok _ Hok2 Hl2) as [Hok3 Hl3].
  rewrite (link_pass gs Hok).
  rewrite (bold_pass _ Hok1 Hl1 (unlink_apart gs Hok Hap)).
  rewrite (italic_pass _ Hok2 Hl2).
  rewrite (code_pass _ Hok3 Hl3).
  now rewrite stripped_text.
Qed.

(** X11. For decorations that do not nest the clean-up is idempotent: cleaning
    the cleaned string gives it back. *)
Theorem cleanUp_idempotent (gs : list segment) :
  wellFormed gs = true ->
  cleanUp (cleanUp (markdown gs)) = cleanUp (markdown gs).
Proof.
  intros H. rewrite (cleanUp_markdown gs H).
  assert (P : wellFormed [Plain (trim (textOf gs))] = true).
  { unfold wellFormed. cbn [forallb okSegment italicsApart].
    rewrite andb_true_r. unfold wellFormed in H.
    apply andb_prop in H as [Hok _].
    unfold plainText. rewrite (trim_forallb _ _ (textOf_plain gs Hok)).
    reflexivity. }
  pose proof (cleanUp_markdown _ P) as E.
  cbn [markdown flat_map render textOf innerText] in E.
  rewrite !app_nil_r in E. rewrite E. apply trim_idempotent.
Qed.

Lemma cleanUp_idempotent_witness :
  cleanUp (cleanUp (lit "see [the docs](http://x.y) and **bold** text. "))
  = cleanUp (lit "see [the docs](http://x.y) and **bold** text. ").
Proof.
  exact (cleanUp_idempotent
           [Plain (lit "see "); Link (lit "the docs") (lit "http://x.y");
            Plain (lit " and "); Bold (lit "bold"); Plain (lit " text. ")]
           eq_refl).
Defined.
